(** * Questionnaire-Ai: the question pipeline of [app.py]

    A shallow embedding of [preprocess_question], [generate_answer] and
    [handle_answer], and the properties of the specification proved (or
    refuted) against it.

    Python values are modelled as Python has them: a [str] is a sequence
    of Unicode code points, a [dict] is a finite map from [str] keys, an
    exception is a value that travels through the error channel of a small
    state-and-error monad until an [except] clause catches it. *)

From Stdlib Require SpecFloat.
From stdpp Require Import gmap strings list pretty.

Local Open Scope N_scope.

(** ** Python strings

    A Python 3 [str] is a sequence of code points.  [py] turns a literal
    of this file (ASCII only) into such a sequence. *)

Abbreviation codepoint := N (only parsing).
Abbreviation str := (list N) (only parsing).

Definition py (s : string) : str :=
  Ascii.N_of_ascii <$> String.list_ascii_of_string s.

(** [f"{n}"] for an [int]. *)
Definition str_of_int (n : Z) : str := py (pretty n).

(** ** The Unicode character database

    [str.lower], [str.strip], [str.split] and the classes [\w] and [\s] of
    a [str] pattern are driven by the interpreter's Unicode tables, which
    are no part of the repository.  They are a parameter of the model; the
    field names follow CPython's predicates ([_PyUnicode_ToLowerFull],
    [Py_UNICODE_ISALPHA], ...). *)

Record ucd := {
  to_lower_full : codepoint → str;
  is_alpha : codepoint → bool;
  is_decimal : codepoint → bool;
  is_digit : codepoint → bool;
  is_numeric : codepoint → bool;
  is_space : codepoint → bool;
  is_lowercase : codepoint → bool;
  is_uppercase : codepoint → bool;
  is_cased : codepoint → bool;
  is_case_ignorable : codepoint → bool
}.

Definition SPACE : codepoint := 0x20.
Definition LOW_LINE : codepoint := 0x5F.
Definition CAPITAL_SIGMA : codepoint := 0x3A3.
Definition FINAL_SIGMA : codepoint := 0x3C2.
Definition SMALL_SIGMA : codepoint := 0x3C3.

Section Strings.
Context (U : ucd).

(** [Py_UNICODE_ISALNUM] *)
Definition is_alnum (c : codepoint) : bool :=
  is_alpha U c || is_decimal U c || is_digit U c || is_numeric U c.

(** [\w] of a [str] pattern: alphanumeric or the underscore. *)
Definition is_word (c : codepoint) : bool :=
  is_alnum c || (c =? LOW_LINE).

(** *** [str.lower]

    Every code point is replaced by its full lower-case mapping, except
    the capital sigma, whose image depends on the characters around it
    (CPython's [handle_capital_sigma]). *)

Fixpoint skip_case_ignorable (s : str) : option codepoint :=
  match s with
  | [] => None
  | c :: s' => if is_case_ignorable U c then skip_case_ignorable s' else Some c
  end.

(** [before] holds the characters to the left, nearest first. *)
Definition handle_capital_sigma (before after : str) : codepoint :=
  let final_sigma :=
    match skip_case_ignorable before with
    | Some c => is_cased U c
    | None => false
    end in
  let final_sigma :=
    if final_sigma then
      match skip_case_ignorable after with
      | Some c => negb (is_cased U c)
      | None => true
      end
    else false in
  if final_sigma then FINAL_SIGMA else SMALL_SIGMA.

Definition lower_ucs4 (before : str) (c : codepoint) (after : str) : str :=
  if c =? CAPITAL_SIGMA then [handle_capital_sigma before after]
  else to_lower_full U c.

Fixpoint do_lower (before s : str) : str :=
  match s with
  | [] => []
  | c :: s' => lower_ucs4 before c s' ++ do_lower (c :: before) s'
  end.

Definition lower (s : str) : str := do_lower [] s.

(** *** [str.strip] without argument *)

Fixpoint lstrip (s : str) : str :=
  match s with
  | [] => []
  | c :: s' => if is_space U c then lstrip s' else s
  end.

Definition rstrip (s : str) : str := reverse (lstrip (reverse s)).

Definition strip (s : str) : str := rstrip (lstrip s).

(** *** [re.sub(r'[^\w\s]', '', s)]

    The pattern matches one code point at a time, so the substitution
    deletes exactly the code points that are neither [\w] nor [\s]. *)

Definition re_sub_not_word_space (s : str) : str :=
  filter (λ c, is_word c || is_space U c = true) s.

(** *** [str.split] without argument

    [cur] is the token being scanned, last character first. *)

Fixpoint split_from (cur s : str) : list str :=
  match s with
  | [] => match cur with [] => [] | _ => [reverse cur] end
  | c :: s' =>
      if is_space U c then
        match cur with
        | [] => split_from [] s'
        | _ => reverse cur :: split_from [] s'
        end
      else split_from (c :: cur) s'
  end.

Definition split (s : str) : list str := split_from [] s.

(** *** [sep.join(tokens)] *)

Fixpoint join (sep : str) (tokens : list str) : str :=
  match tokens with
  | [] => []
  | t :: rest =>
      match rest with
      | [] => t
      | _ => t ++ sep ++ join sep rest
      end
  end.

(** *** [preprocess_question] *)

Definition preprocess_question (question : str) : str :=
  let processed := strip (lower question) in
  let processed := re_sub_not_word_space processed in
  let tokens := split processed in
  join (py " ") tokens.

End Strings.

(** ** A concrete table

    [ucd_sample] holds the rows of CPython's tables (Unicode 14) for the
    code points U+0000..U+00FF, for every white-space code point, and for
    U+0130, U+0307, U+03A3, U+03C2, U+03C3, U+211D and U+4E2D.  Any other
    code point gets the row of an unassigned one: no case, no class.  It
    is used to run the model on concrete strings; the general theorems
    hold for every table that satisfies [ucd_wf] below. *)

Definition in_range (lo hi c : codepoint) : bool := (lo <=? c) && (c <=? hi).

Definition sample_to_lower_full (c : codepoint) : str :=
  if in_range 0x41 0x5A c || in_range 0xC0 0xD6 c || in_range 0xD8 0xDE c
  then [c + 0x20]
  else if c =? 0x130 then [0x69; 0x307]
  else if c =? 0x3A3 then [0x3C3]
  else [c].

Definition sample_is_lowercase (c : codepoint) : bool :=
  in_range 0x61 0x7A c || (c =? 0xAA) || (c =? 0xB5) || (c =? 0xBA)
  || in_range 0xDF 0xF6 c || in_range 0xF8 0xFF c || in_range 0x3C2 0x3C3 c.

Definition sample_is_uppercase (c : codepoint) : bool :=
  in_range 0x41 0x5A c || in_range 0xC0 0xD6 c || in_range 0xD8 0xDE c
  || (c =? 0x130) || (c =? 0x3A3) || (c =? 0x211D).

Definition sample_is_alpha (c : codepoint) : bool :=
  sample_is_lowercase c || sample_is_uppercase c || (c =? 0x4E2D).

Definition sample_is_decimal (c : codepoint) : bool := in_range 0x30 0x39 c.

Definition sample_is_digit (c : codepoint) : bool :=
  in_range 0x30 0x39 c || in_range 0xB2 0xB3 c || (c =? 0xB9).

Definition sample_is_numeric (c : codepoint) : bool :=
  sample_is_digit c || in_range 0xBC 0xBE c.

Definition sample_is_space (c : codepoint) : bool :=
  in_range 0x09 0x0D c || in_range 0x1C 0x20 c || (c =? 0x85) || (c =? 0xA0)
  || (c =? 0x1680) || in_range 0x2000 0x200A c || in_range 0x2028 0x2029 c
  || (c =? 0x202F) || (c =? 0x205F) || (c =? 0x3000).

Definition sample_is_case_ignorable (c : codepoint) : bool :=
  (c =? 0x27) || (c =? 0x2E) || (c =? 0x3A) || (c =? 0x5E) || (c =? 0x60)
  || (c =? 0xA8) || (c =? 0xAD) || (c =? 0xAF) || (c =? 0xB4)
  || in_range 0xB7 0xB8 c || (c =? 0x307).

Definition ucd_sample : ucd := {|
  to_lower_full := sample_to_lower_full;
  is_alpha := sample_is_alpha;
  is_decimal := sample_is_decimal;
  is_digit := sample_is_digit;
  is_numeric := sample_is_numeric;
  is_space := sample_is_space;
  is_lowercase := sample_is_lowercase;
  is_uppercase := sample_is_uppercase;
  is_cased := λ c, sample_is_lowercase c || sample_is_uppercase c;
  is_case_ignorable := sample_is_case_ignorable
|}.

(** ** Well-formed tables and tokens *)

(** A code point that [str.lower] leaves alone wherever it stands. *)
Definition lower_fixed (U : ucd) (c : codepoint) : Prop :=
  c ≠ CAPITAL_SIGMA ∧ to_lower_full U c = [c].

(** What the theorems ask of a table: U+0020 is white space and has no
    case, and lower-casing reaches a fixed point in one step.  Both hold
    of the tables CPython ships. *)
Record ucd_wf (U : ucd) : Prop := {
  wf_space : is_space U SPACE = true;
  wf_space_fixed : lower_fixed U SPACE;
  wf_final_sigma : lower_fixed U FINAL_SIGMA;
  wf_small_sigma : lower_fixed U SMALL_SIGMA;
  wf_lower : ∀ c d, c ≠ CAPITAL_SIGMA → d ∈ to_lower_full U c → lower_fixed U d
}.

(** A token of the result: not empty, made of word characters that are
    not white space. *)
Definition is_token (U : ucd) (t : str) : Prop :=
  t ≠ [] ∧ Forall (λ c, is_word U c = true ∧ is_space U c = false) t.

(** * Python values, exceptions and effects *)

(** ** Values

    The values that travel through [app.py]: what [json] parsing produces
    ([None], [bool], [int], [float], [str], [list], [dict] with [str]
    keys) and what the dict literals of the program are built from. *)

#[warnings="-register-all"] Inductive pyval :=
  | PNone
  | PBool (b : bool)
  | PInt (n : Z)
  | PFloat (x : SpecFloat.spec_float)
  | PStr (s : str)
  | PList (l : list pyval)
  | PDict (d : gmap str pyval).

(** A dict literal [{"k1": v1, ...}] with keys written as literals. *)
Definition dict_literal (items : list (string * pyval)) : gmap str pyval :=
  list_to_map (prod_map py id <$> items).

(** [type(v).__name__] *)
Definition type_name (v : pyval) : str :=
  match v with
  | PNone => py "NoneType"
  | PBool _ => py "bool"
  | PInt _ => py "int"
  | PFloat _ => py "float"
  | PStr _ => py "str"
  | PList _ => py "list"
  | PDict _ => py "dict"
  end.

(** [bool(v)], as [not v] and [if v] use it. *)
Definition truthy (v : pyval) : bool :=
  match v with
  | PNone => false
  | PBool b => b
  | PInt n => negb (n =? 0)%Z
  | PFloat (SpecFloat.S754_zero _) => false
  | PFloat _ => true
  | PStr s => match s with [] => false | _ => true end
  | PList l => match l with [] => false | _ => true end
  | PDict d => negb (bool_decide (d = ∅))
  end.

(** ** Exceptions

    An exception is known by what the [except] clauses of the program
    test, its class, and by [str(e)], which the program formats into its
    messages.  [RequestException] stands for
    [requests.exceptions.RequestException] and all of its subclasses
    (connection errors, timeouts, ...).  [KeyboardInterrupt] and
    [SystemExit] derive from [BaseException] only; every other class
    here derives from [Exception]. *)

Inductive exn_class :=
  | RequestException
  | IndexError
  | KeyError
  | TypeError
  | AttributeError
  | OtherException
  | KeyboardInterrupt
  | SystemExit.

Record exn := Exn { exn_class_of : exn_class; exn_str : str }.

(** [isinstance(e, requests.exceptions.RequestException)] *)
Definition is_request_exception (e : exn) : bool :=
  match exn_class_of e with RequestException => true | _ => false end.

(** [isinstance(e, Exception)] *)
Definition is_exception (e : exn) : bool :=
  match exn_class_of e with
  | KeyboardInterrupt | SystemExit => false
  | _ => true
  end.

(** An operation that either raises or returns. *)
Definition outcome (A : Type) : Type := (exn + A)%type.

Global Instance outcome_ret : MRet outcome := λ A x, inr x.

Global Instance outcome_bind : MBind outcome := λ A B f r,
  match r with
  | inl e => inl e
  | inr a => f a
  end.

Definition raise {A} (cls : exn_class) (msg : str) : outcome A :=
  inl (Exn cls msg).

(** ** Operations on values *)

(** [v.get(key, default)] *)
Definition py_get (v : pyval) (key : string) (dflt : pyval) : outcome pyval :=
  match v with
  | PDict d => inr (default dflt (d !! py key))
  | _ => raise AttributeError
             (py "'" ++ type_name v ++ py "' object has no attribute 'get'")
  end.

(** [v[0]].  The keys of a dict that came out of JSON are strings, so [0]
    is never one of them. *)
Definition py_index0 (v : pyval) : outcome pyval :=
  match v with
  | PList (x :: _) => inr x
  | PList [] => raise IndexError (py "list index out of range")
  | PStr (c :: _) => inr (PStr [c])
  | PStr [] => raise IndexError (py "string index out of range")
  | PDict _ => raise KeyError (py "0")
  | _ => raise TypeError
             (py "'" ++ type_name v ++ py "' object is not subscriptable")
  end.

(** [d[key]] on a dict *)
Definition dict_getitem (d : gmap str pyval) (key : string) : outcome pyval :=
  match d !! py key with
  | Some v => inr v
  | None => raise KeyError (py "'" ++ py key ++ py "'")
  end.

(** [v.strip()] *)
Definition py_strip (U : ucd) (v : pyval) : outcome str :=
  match v with
  | PStr s => inr (strip U s)
  | _ => raise AttributeError
             (py "'" ++ type_name v ++ py "' object has no attribute 'strip'")
  end.

(** ** The outside world

    One outbound request carries the arguments of [requests.post]; the
    provider's side is a function from the request to what the call does:
    it raises, or it returns a response with a status code, a body text
    and the outcome of [response.json()] (a value, or an exception when
    the body is no JSON). *)

Record request := {
  req_url : str;
  req_json : pyval;
  req_headers : gmap str pyval;
  req_timeout : Z
}.

Record response := {
  status_code : Z;
  text : str;
  json : outcome pyval
}.

Definition network := request → outcome response.

(** What a run does that an observer could count: the calls into the
    preprocessor and the answer service, and the outbound HTTP calls. *)
Inductive event :=
  | CallPreprocess (question : str)
  | CallGenerateAnswer (query : str)
  | HttpPost (r : request).

(** ** The monad of the program: a trace of events and an exception channel *)

Definition M (A : Type) : Type := list event → outcome A * list event.

Global Instance M_ret : MRet M := λ A x tr, (inr x, tr).

Global Instance M_bind : MBind M := λ A B f m tr,
  match m tr with
  | (inl e, tr') => (inl e, tr')
  | (inr a, tr') => f a tr'
  end.

Definition emit (ev : event) : M unit := λ tr, (inr tt, tr ++ [ev]).

(** An operation that may raise, run inside the program *)
Definition lift {A} (r : outcome A) : M A := λ tr, (r, tr).

(** The [except] clauses of a [try], in order: each is a class test and
    a handler.  The first clause whose test accepts the exception handles
    it; an exception that no clause accepts propagates. *)
Fixpoint except_clauses {A} (clauses : list ((exn → bool) * (exn → M A)))
    (e : exn) : M A :=
  match clauses with
  | [] => lift (inl e)
  | (accepts, handler) :: rest =>
      if accepts e then handler e else except_clauses rest e
  end.

(** [try: body except C1 as e: h1 e except C2 as e: h2 e] *)
Definition try_except {A} (body : M A)
    (clauses : list ((exn → bool) * (exn → M A))) : M A := λ tr,
  match body tr with
  | (inl e, tr') => except_clauses clauses e tr'
  | (inr a, tr') => (inr a, tr')
  end.

(** [requests.post(url, json=..., headers=..., timeout=...)] *)
Definition requests_post (net : network) (r : request) : M response :=
  emit (HttpPost r) ;; lift (net r).

(** * The answer service and the request handler *)

Definition MODEL_NAME : str := py "gemini-2.5-flash-preview-09-2025".

Definition API_URL : str :=
  py "https://generativelanguage.googleapis.com/v1beta/models/"
  ++ MODEL_NAME ++ py ":generateContent".

(** The dict every return path of [generate_answer] builds:
    [{"error": ..., "answer": ..., "raw_response": ...}]. *)
Definition answer_result (error : bool) (answer : pyval) (raw_response : str)
    : gmap str pyval :=
  dict_literal [("error", PBool error);
                ("answer", answer);
                ("raw_response", PStr raw_response)].

(** [not GEMINI_API_KEY]: the variable is [None] (not set in the
    environment) or a string, which is falsy when empty. *)
Definition key_missing (GEMINI_API_KEY : option str) : bool :=
  match GEMINI_API_KEY with
  | None => true
  | Some k => negb (truthy (PStr k))
  end.

(** [f"{GEMINI_API_KEY}"] *)
Definition format_key (GEMINI_API_KEY : option str) : str :=
  match GEMINI_API_KEY with
  | Some k => k
  | None => py "None"
  end.

(** The arguments of the one [requests.post] call. *)
Definition gemini_request (GEMINI_API_KEY : option str)
    (processed_query : str) : request :=
  let system_instruction :=
    py "You are a friendly, web-based Question-Answering assistant. Provide a clear and helpful answer." in
  let payload := PDict (dict_literal [
    ("contents",
      PList [PDict (dict_literal [
        ("parts", PList [PDict (dict_literal [("text", PStr processed_query)])])])]);
    ("systemInstruction",
      PDict (dict_literal [
        ("parts", PList [PDict (dict_literal [("text", PStr system_instruction)])])]));
    ("tools", PList [PDict (dict_literal [("google_search", PDict (dict_literal []))])])
  ]) in
  let headers := dict_literal [("Content-Type", PStr (py "application/json"))] in
  {| req_url := API_URL ++ py "?key=" ++ format_key GEMINI_API_KEY;
     req_json := payload;
     req_headers := headers;
     req_timeout := 60 |}.

(** [result.get('candidates', [{}])[0].get('content', {})
          .get('parts', [{}])[0].get('text', 'No answer generated.')] *)
Definition extract_answer_text (result : pyval) : outcome pyval :=
  candidates ← py_get result "candidates" (PList [PDict (dict_literal [])]);
  candidate ← py_index0 candidates;
  content ← py_get candidate "content" (PDict (dict_literal []));
  parts ← py_get content "parts" (PList [PDict (dict_literal [])]);
  part ← py_index0 parts;
  py_get part "text" (PStr (py "No answer generated.")).

Definition generate_answer (GEMINI_API_KEY : option str) (net : network)
    (processed_query : str) : M (gmap str pyval) :=
  if key_missing GEMINI_API_KEY then
    mret (answer_result true
      (PStr (py "GEMINI_API_KEY not configured on the server. Please check your .env file or environment variables."))
      (py "N/A"))
  else
    try_except
      (response ← requests_post net
         (gemini_request GEMINI_API_KEY processed_query);
       if negb (status_code response =? 200)%Z then
         mret (answer_result true
           (PStr (py "API Error: Status " ++ str_of_int (status_code response)
                  ++ py ". Response: " ++ text response))
           (text response))
       else
         result ← lift (json response);
         answer_text ← lift (extract_answer_text result);
         mret (answer_result false answer_text (text response)))
      [(is_request_exception, λ e,
          mret (answer_result true
            (PStr (py "Connection Error: Could not reach the API endpoint. "
                   ++ exn_str e))
            (exn_str e)));
       (is_exception, λ e,
          mret (answer_result true
            (PStr (py "An unexpected server error occurred: " ++ exn_str e))
            (exn_str e)))].

(** The body of the 400 answer of [handle_answer]. *)
Definition no_question_body : gmap str pyval :=
  dict_literal [("error", PBool true);
                ("message", PStr (py "Please enter a question."));
                ("processed", PStr (py ""));
                ("answer", PStr (py "No question provided."));
                ("raw_response", PStr (py ""))].

(** [handle_answer]: [data] is what [request.get_json()] returned, the
    result is the pair of the dict given to [jsonify] and the status
    code.  An exception that leaves the function is Flask's to turn into
    a response. *)
Definition handle_answer (U : ucd) (GEMINI_API_KEY : option str)
    (net : network) (data : pyval) : M (gmap str pyval * Z) :=
  question ← lift (py_get data "question" (PStr (py "")));
  user_question ← lift (py_strip U question);
  if negb (truthy (PStr user_question)) then
    mret (no_question_body, 400%Z)
  else
    emit (CallPreprocess user_question) ;;
    let processed_query := preprocess_question U user_question in
    emit (CallGenerateAnswer processed_query) ;;
    response_data ← generate_answer GEMINI_API_KEY net processed_query;
    error ← lift (dict_getitem response_data "error");
    let status_code := if negb (truthy error) then 200%Z else 500%Z in
    message ← lift (dict_getitem response_data "answer");
    error' ← lift (dict_getitem response_data "error");
    raw_response ← lift (dict_getitem response_data "raw_response");
    mret (dict_literal [("error", error');
                        ("message", message);
                        ("processed", PStr processed_query);
                        ("raw_response", raw_response)],
          status_code).

(** * The wording of the specification

    Two sentences of the specification are compared below with what the
    program does; their wording is made precise here. *)

(** "Lowercase letters, digits, underscore and single interior spaces":
    the character set the specification gives to a preprocessed
    question. *)
Definition spec_char (U : ucd) (c : codepoint) : bool :=
  is_lowercase U c || (is_decimal U c || is_digit U c || is_numeric U c)
  || (c =? LOW_LINE) || (c =? SPACE).

(** No white space at either end and none doubled. *)
Definition single_spaced (U : ucd) (r : str) : Prop :=
  (∀ c, head r = Some c → is_space U c = false)
  ∧ (∀ c, last r = Some c → is_space U c = false)
  ∧ (∀ i a b, r !! i = Some a → r !! S i = Some b →
       is_space U a = true → is_space U b = false).

(** The result of preprocessing as the specification describes it. *)
Definition preprocessed_as_specified (U : ucd) (s : str) : Prop :=
  let r := preprocess_question U s in
  Forall (λ c, spec_char U c = true) r
  ∧ Forall (λ c, is_alpha U c = true → is_lowercase U c = true) r
  ∧ single_spaced U r.

(** A well-formed AnswerResult as the specification describes it: the
    three fields, a [bool] and two strings. *)
Definition is_str (v : pyval) : Prop := ∃ s, v = PStr s.

Definition answer_result_as_specified (d : gmap str pyval) : Prop :=
  dom d = {[py "error"; py "answer"; py "raw_response"]}
  ∧ (∃ b, d !! py "error" = Some (PBool b))
  ∧ (∃ a, d !! py "answer" = Some a ∧ is_str a)
  ∧ (∃ r, d !! py "raw_response" = Some r ∧ is_str r).

Definition generate_answer_as_specified (GEMINI_API_KEY : option str)
    (net : network) (q : str) (tr : list event) : Prop :=
  ∃ d tr', generate_answer GEMINI_API_KEY net q tr = (inr d, tr')
           ∧ answer_result_as_specified d.

(** The status rule of the inbound boundary as the specification words
    it: 400 and [error] true when the question is empty or missing,
    otherwise 500 or 200 after the error flag of the answer. *)
Definition question_empty_or_missing (data : pyval) : Prop :=
  ∃ d, data = PDict d
       ∧ (d !! py "question" = None ∨ d !! py "question" = Some (PStr [])).

Definition handle_answer_as_specified (U : ucd) (GEMINI_API_KEY : option str)
    (net : network) (data : pyval) (tr : list event) : Prop :=
  (question_empty_or_missing data →
     ∃ body, handle_answer U GEMINI_API_KEY net data tr = (inr (body, 400%Z), tr)
             ∧ body !! py "error" = Some (PBool true))
  ∧ (¬ question_empty_or_missing data →
     ∃ body status tr',
       handle_answer U GEMINI_API_KEY net data tr = (inr (body, status), tr')
       ∧ (status = 500%Z ∧ body !! py "error" = Some (PBool true)
          ∨ status = 200%Z ∧ body !! py "error" = Some (PBool false))).

(** The dict the handler gives to [jsonify] after the answer service
    has returned. *)
Definition answer_body (error message : pyval) (processed_query : str)
    (raw_response : pyval) : gmap str pyval :=
  dict_literal [("error", error);
                ("message", message);
                ("processed", PStr processed_query);
                ("raw_response", raw_response)].

(** What the two [except] clauses return for the exception [e]. *)
Definition except_result (e : exn) : gmap str pyval :=
  if is_request_exception e then
    answer_result true
      (PStr (py "Connection Error: Could not reach the API endpoint. "
             ++ exn_str e))
      (exn_str e)
  else
    answer_result true
      (PStr (py "An unexpected server error occurred: " ++ exn_str e))
      (exn_str e).

(** What becomes of an exception [e] raised inside the [try] of
    [generate_answer]: a clause turns it into a result, or it leaves the
    function. *)
Definition except_outcome (e : exn) : outcome (gmap str pyval) :=
  if is_request_exception e || is_exception e then inr (except_result e)
  else inl e.

(** The exception [e] leaves [generate_answer]: a key is configured, [e]
    does not derive from [Exception], and the call raised it, or
    [response.json()] did on a 200 response. *)
Definition escapes (GEMINI_API_KEY : option str) (net : network) (q : str)
    (e : exn) : Prop :=
  key_missing GEMINI_API_KEY = false
  ∧ is_exception e = false
  ∧ (net (gemini_request GEMINI_API_KEY q) = inl e
     ∨ ∃ resp, net (gemini_request GEMINI_API_KEY q) = inr resp
               ∧ status_code resp = 200%Z
               ∧ json resp = inl e).

(** A provider's side that raises nothing outside [Exception]: neither
    the call nor [response.json()] raises a [KeyboardInterrupt] or a
    [SystemExit]. *)
Definition only_exceptions (net : network) : Prop :=
  ∀ r,
    match net r with
    | inl e => is_exception e = true
    | inr resp =>
        match json resp with
        | inl e => is_exception e = true
        | inr _ => True
        end
    end.

(** ** Concrete providers

    [dq] writes a body text with ['] standing for the double quote. *)
Definition dq (s : string) : str :=
  (λ c, if c =? 0x27 then 0x22 else c) <$> py s.

(** HTTP 200, and a body whose first candidate's first part has the text
    ["Paris"]. *)
Definition response_paris : response :=
  {| status_code := 200;
     text := dq "{'candidates': [{'content': {'parts': [{'text': 'Paris'}]}}]}";
     json := inr (PDict (dict_literal [("candidates", PList [PDict (dict_literal
               [("content", PDict (dict_literal [("parts", PList [PDict (dict_literal
                  [("text", PStr (py "Paris"))])])]))])])])) |}.

Definition provider_paris : network := λ _, inr response_paris.

(** HTTP 200, and a body whose text field holds a number. *)
Definition response_numeric_text : response :=
  {| status_code := 200;
     text := dq "{'candidates': [{'content': {'parts': [{'text': 5}]}}]}";
     json := inr (PDict (dict_literal [("candidates", PList [PDict (dict_literal
               [("content", PDict (dict_literal [("parts", PList [PDict (dict_literal
                  [("text", PInt 5)])])]))])])])) |}.

Definition provider_numeric_text : network := λ _, inr response_numeric_text.

(** HTTP 200, and a body with an empty list of candidates. *)
Definition response_no_candidate : response :=
  {| status_code := 200;
     text := dq "{'candidates': []}";
     json := inr (PDict (dict_literal [("candidates", PList [])])) |}.

Definition provider_no_candidate : network := λ _, inr response_no_candidate.

(** HTTP 429 *)
Definition response_429 : response :=
  {| status_code := 429;
     text := dq "{'error': {'code': 429, 'status': 'RESOURCE_EXHAUSTED'}}";
     json := inr (PDict (dict_literal [("error", PDict (dict_literal
               [("code", PInt 429);
                ("status", PStr (py "RESOURCE_EXHAUSTED"))]))])) |}.

Definition provider_429 : network := λ _, inr response_429.

(** The call does not get through. *)
Definition provider_unreachable : network := λ _,
  raise RequestException (py "Connection refused").

(** ** Concrete request bodies *)

Definition body_with_question (question : str) : pyval :=
  PDict (dict_literal [("question", PStr question)]).

(** The call is interrupted: a [KeyboardInterrupt] is raised inside
    [requests.post]. *)
Definition provider_interrupted : network := λ _,
  raise KeyboardInterrupt (py "").

(** * Further vocabulary

    Predicates used by the properties proved beyond the specification's
    sentences. *)

(** A string in the form [preprocess_question] produces: tokens of word
    characters that lower-casing leaves alone, joined by single spaces. *)
Definition normalized (U : ucd) (s : str) : Prop :=
  ∃ tokens, s = join [SPACE] tokens
            ∧ Forall (λ t, is_token U t ∧ Forall (lower_fixed U) t) tokens.

(** White space has no case: a white-space character is its own lower
    case and is not cased.  CPython's tables have this property. *)
Definition space_caseless (U : ucd) : Prop :=
  ∀ c, is_space U c = true →
       c ≠ CAPITAL_SIGMA ∧ to_lower_full U c = [c] ∧ is_cased U c = false.

(** Whether the first character that is not case-ignorable is cased: what
    the capital-sigma rule looks for on either side. *)
Definition cased_ahead (U : ucd) (s : str) : bool :=
  match skip_case_ignorable U s with
  | Some c => is_cased U c
  | None => false
  end.

(** ** More providers *)

(** The call fails with an exception that is no [RequestException]. *)
Definition provider_broken : network := λ _,
  raise OtherException (py "unsupported operand").

(** HTTP 200 with a body that is no JSON: [response.json()] raises the
    decode error of [requests], a [RequestException]. *)
Definition response_not_json : response :=
  {| status_code := 200;
     text := py "<html>Service Unavailable</html>";
     json := raise RequestException
               (py "Expecting value: line 1 column 1 (char 0)") |}.

Definition provider_not_json : network := λ _, inr response_not_json.

(** HTTP 200 with the body [{}]. *)
Definition response_empty_object : response :=
  {| status_code := 200;
     text := py "{}";
     json := inr (PDict (dict_literal [])) |}.

Definition provider_empty_object : network := λ _, inr response_empty_object.

(** HTTP 200 with the body [[]]. *)
Definition response_list_body : response :=
  {| status_code := 200;
     text := py "[]";
     json := inr (PList []) |}.

Definition provider_list_body : network := λ _, inr response_list_body.

(** HTTP 200 with a candidate whose parts list is empty. *)
Definition response_no_part : response :=
  {| status_code := 200;
     text := dq "{'candidates': [{'content': {'parts': []}}]}";
     json := inr (PDict (dict_literal [("candidates", PList [PDict (dict_literal
               [("content", PDict (dict_literal [("parts", PList [])]))])])])) |}.

Definition provider_no_part : network := λ _, inr response_no_part.

(** ** More request bodies *)

(** A body that is a JSON list, not an object. *)
Definition body_list : pyval := PList [PStr (py "What is Rocq?")].

(** A body whose question is [null]. *)
Definition body_null_question : pyval :=
  PDict (dict_literal [("question", PNone)]).

(** White space is plain: caseless and not case-ignorable, so that the
    capital-sigma rule never looks across it.  CPython's tables have
    this property too. *)
Definition space_plain (U : ucd) : Prop :=
  space_caseless U
  ∧ ∀ c, is_space U c = true → is_case_ignorable U c = false.

(** Two preprocessed strings put side by side: a single space between
    them when neither is empty. *)
Definition join_results (l r : str) : str :=
  match l, r with
  | [], _ => r
  | _, [] => l
  | _, _ => l ++ [SPACE] ++ r
  end.

(** ** Start-up

    The block under [if __name__ == '__main__']: what it prints and the
    server it starts. *)

Inductive startup_step :=
  | Print (line : str)
  | AppRun (debug : bool) (host : str) (port : Z).

Definition main (GEMINI_API_KEY : option str) : list startup_step :=
  (if key_missing GEMINI_API_KEY then
     [Print ([0x0A] ++ py "!!!!!!!!!!!!!!!!!!!!!!!!!!!!!!!!!!!!!!!!!!!!!!!!!!!!!!!!!!!!!!!!!!!!!!!!");
      Print (py "!! WARNING: GEMINI_API_KEY is NOT set. The API calls will fail. !!");
      Print (py "!! Please ensure you have a .env file with GEMINI_API_KEY='your_key' !!");
      Print (py "!!!!!!!!!!!!!!!!!!!!!!!!!!!!!!!!!!!!!!!!!!!!!!!!!!!!!!!!!!!!!!!!!!!!!!!!" ++ [0x0A])]
   else [])
  ++ [AppRun true (py "0.0.0.0") 5000].

(** * Facts about the string operations *)

Section StringFacts.
Context (U : ucd).
Implicit Types (s t cur : str) (c : codepoint) (P : codepoint → Prop).

Lemma handle_capital_sigma_cases before after :
  handle_capital_sigma U before after = FINAL_SIGMA
  ∨ handle_capital_sigma U before after = SMALL_SIGMA.
Proof.
  unfold handle_capital_sigma.
  destruct (skip_case_ignorable U before) as [c|]; [destruct (is_cased U c)|];
    [destruct (skip_case_ignorable U after) as [d|]; [destruct (is_cased U d)|]| |];
    auto.
Qed.

Lemma do_lower_Forall P Q before s :
  Forall Q s →
  (Q CAPITAL_SIGMA → P FINAL_SIGMA ∧ P SMALL_SIGMA) →
  (∀ c d, Q c → c ≠ CAPITAL_SIGMA → d ∈ to_lower_full U c → P d) →
  Forall P (do_lower U before s).
Proof.
  intros Hs Hsig Hl. revert before.
  induction Hs as [|c s Hc Hs IH]; intros before; simpl; [constructor|].
  apply Forall_app; split; [|apply IH].
  unfold lower_ucs4. destruct (N.eqb_spec c CAPITAL_SIGMA) as [->|Hne].
  - apply Forall_singleton. destruct (Hsig Hc) as [Hf Hsm].
    destruct (handle_capital_sigma_cases before s) as [-> | ->]; assumption.
  - apply Forall_forall. intros d Hd. by apply (Hl c).
Qed.

Lemma do_lower_fixed before s :
  Forall (lower_fixed U) s → do_lower U before s = s.
Proof.
  intros Hs. revert before.
  induction Hs as [|c s [Hne Hc] _ IH]; intros before; simpl; [done|].
  unfold lower_ucs4. apply N.eqb_neq in Hne. rewrite Hne, Hc, IH. done.
Qed.

Lemma lstrip_Forall P s : Forall P s → Forall P (lstrip U s).
Proof.
  induction 1 as [|c s Hc Hs IH]; simpl; [constructor|].
  destruct (is_space U c); [done | by constructor].
Qed.

Lemma strip_Forall P s : Forall P s → Forall P (strip U s).
Proof.
  intros Hs. unfold strip, rstrip.
  apply Forall_reverse, lstrip_Forall, Forall_reverse, lstrip_Forall, Hs.
Qed.

Lemma lstrip_head s :
  (∀ c, head s = Some c → is_space U c = false) → lstrip U s = s.
Proof.
  destruct s as [|c s]; simpl; [done|].
  intros H. by rewrite (H c eq_refl).
Qed.

Lemma strip_id s :
  (∀ c, head s = Some c → is_space U c = false) →
  (∀ c, last s = Some c → is_space U c = false) →
  strip U s = s.
Proof.
  intros Hh Hl. unfold strip, rstrip. rewrite (lstrip_head s Hh).
  rewrite lstrip_head, reverse_involutive; [done|].
  intros c. rewrite head_reverse. apply Hl.
Qed.

Lemma re_sub_Forall P s :
  Forall P s →
  Forall (λ c, P c ∧ is_word U c || is_space U c = true)
         (re_sub_not_word_space U s).
Proof.
  unfold re_sub_not_word_space.
  induction 1 as [|c s Hc Hs IH]; [constructor|].
  rewrite filter_cons. case_decide; [by constructor | done].
Qed.

Lemma re_sub_id s :
  Forall (λ c, is_word U c || is_space U c = true) s →
  re_sub_not_word_space U s = s.
Proof.
  unfold re_sub_not_word_space.
  induction 1 as [|c s Hc Hs IH]; [done|].
  by rewrite filter_cons_True, IH.
Qed.

(** Every token that [split] returns is non-empty and free of white
    space, and is made of characters of the string. *)
Lemma split_from_Forall P cur s :
  Forall (λ c, P c ∧ is_space U c = false) cur →
  Forall P s →
  Forall (λ t, t ≠ [] ∧ Forall (λ c, P c ∧ is_space U c = false) t)
         (split_from U cur s).
Proof.
  intros Hcur Hs. revert cur Hcur.
  induction Hs as [|c s Hc Hs IH]; intros cur Hcur; simpl.
  - destruct cur as [|d cur]; [constructor|].
    apply Forall_singleton. split; [|by apply Forall_reverse].
    intros E. apply (f_equal length) in E.
    rewrite length_reverse in E. discriminate.
  - destruct (is_space U c) eqn:Hsp.
    + destruct cur as [|d cur]; [by apply IH|].
      constructor; [|by apply IH].
      split; [|by apply Forall_reverse].
      intros E. apply (f_equal length) in E.
      rewrite length_reverse in E. discriminate.
    + apply IH. by constructor.
Qed.

Lemma split_from_token cur t rest :
  Forall (λ c, is_space U c = false) t →
  split_from U cur (t ++ rest) = split_from U (reverse t ++ cur) rest.
Proof.
  intros Ht. revert cur.
  induction Ht as [|c t Hc Ht IH]; intros cur; simpl; [done|].
  rewrite Hc, IH, reverse_cons, <- app_assoc. done.
Qed.

Lemma split_from_end cur :
  cur ≠ [] → split_from U cur [] = [reverse cur].
Proof. by destruct cur. Qed.

Lemma split_from_space cur sp s :
  cur ≠ [] → is_space U sp = true →
  split_from U cur (sp :: s) = reverse cur :: split_from U [] s.
Proof. intros Hne Hsp. cbn [split_from]. rewrite Hsp. by destruct cur. Qed.

(** [split] undoes [join] on tokens separated by one white-space
    character. *)
Lemma split_join sp tokens :
  is_space U sp = true →
  Forall (λ t, t ≠ [] ∧ Forall (λ c, is_space U c = false) t) tokens →
  split U (join [sp] tokens) = tokens.
Proof.
  intros Hsp Htoks. unfold split.
  induction Htoks as [|t rest [Hne Ht] Hrest IH]; [done|].
  assert (Hcur : reverse t ++ [] ≠ []).
  { rewrite app_nil_r. intros E. apply Hne.
    by rewrite <- (reverse_involutive t), E. }
  cbn [join]. destruct rest as [|t' rest].
  - rewrite <- (app_nil_r t) at 1. rewrite split_from_token by done.
    rewrite split_from_end by done.
    by rewrite app_nil_r, reverse_involutive.
  - rewrite split_from_token by done.
    change ([sp] ++ join [sp] (t' :: rest)) with (sp :: join [sp] (t' :: rest)).
    rewrite split_from_space by done.
    by rewrite IH, app_nil_r, reverse_involutive.
Qed.

Lemma join_head sp tokens c :
  Forall (λ t, t ≠ [] ∧ Forall (λ c, is_space U c = false) t) tokens →
  head (join [sp] tokens) = Some c → is_space U c = false.
Proof.
  intros Htoks. destruct Htoks as [|t rest [Hne Ht] _]; [done|].
  destruct t as [|d t]; [done|]. apply Forall_cons in Ht as [Hd _].
  simpl. destruct rest; simpl; congruence.
Qed.

Lemma join_nil sp tokens :
  Forall (λ t, t ≠ []) tokens → join [sp] tokens = [] → tokens = [].
Proof.
  intros Htoks. destruct Htoks as [|t rest Hne _]; [done|].
  cbn [join]. destruct t; [done|]. destruct rest; discriminate.
Qed.

Lemma join_last sp tokens c :
  Forall (λ t, t ≠ [] ∧ Forall (λ c, is_space U c = false) t) tokens →
  last (join [sp] tokens) = Some c → is_space U c = false.
Proof.
  induction 1 as [|t rest [Hne Ht] Hrest IH]; [done|].
  cbn [join]. destruct rest as [|t' rest].
  - intros Hl. apply last_Some_elem_of in Hl.
    by apply (proj1 (Forall_forall _ _) Ht).
  - remember (join [sp] (t' :: rest)) as r eqn:Hr.
    rewrite !last_app. destruct (last r) as [y|] eqn:E.
    + intros [= ->]. by apply IH.
    + apply last_None in E. subst r. apply join_nil in E; [done|].
      eapply Forall_impl; [exact Hrest|]. by intros ? [? _].
Qed.

Lemma join_Forall P sp tokens :
  P sp → Forall (Forall P) tokens → Forall P (join [sp] tokens).
Proof.
  intros Hsp. induction 1 as [|t rest Ht Hrest IH]; [constructor|].
  simpl. destruct rest; [done|].
  apply Forall_app; split; [done|]. by constructor.
Qed.

(** White space inside a joined string is never doubled. *)
Lemma join_no_double_space sp tokens i a b :
  Forall (λ t, t ≠ [] ∧ Forall (λ c, is_space U c = false) t) tokens →
  join [sp] tokens !! i = Some a → join [sp] tokens !! S i = Some b →
  is_space U a = true → is_space U b = false.
Proof.
  intros Htoks. revert i.
  induction Htoks as [|t rest [Hne Ht] Hrest IH]; intros i; [done|].
  cbn [join]. destruct rest as [|t' rest].
  - intros Ha _ Hsp. apply list_elem_of_lookup_2 in Ha.
    rewrite (proj1 (Forall_forall _ _) Ht a Ha) in Hsp. done.
  - remember (join [sp] (t' :: rest)) as r eqn:Hr.
    change ([sp] ++ r) with (sp :: r).
    destruct (decide (i < length t)%nat) as [Hlt|Hge].
    + rewrite lookup_app_l by done. intros Ha _ Hsp.
      apply list_elem_of_lookup_2 in Ha.
      rewrite (proj1 (Forall_forall _ _) Ht a Ha) in Hsp. done.
    + rewrite !lookup_app_r by lia.
      replace (S i - length t)%nat with (S (i - length t)) by lia.
      destruct (i - length t)%nat as [|j] eqn:Hj; simpl.
      * intros _ Hb _. apply (join_head sp (t' :: rest) b Hrest).
        rewrite <- Hr. by rewrite head_lookup.
      * apply IH.
Qed.

End StringFacts.

(** ** Properties of [preprocess_question] *)

Section Preprocess.
Context (U : ucd).

(** The tokens [preprocess_question] joins: each is a token in the sense
    of [is_token], and its characters inherit every property [P] that
    lower-casing establishes on a string whose characters satisfy [Q]. *)
Lemma preprocess_tokens (P Q : codepoint → Prop) (s : str) :
  Forall Q s →
  (Q CAPITAL_SIGMA → P FINAL_SIGMA ∧ P SMALL_SIGMA) →
  (∀ c d, Q c → c ≠ CAPITAL_SIGMA → d ∈ to_lower_full U c → P d) →
  Forall (λ t, is_token U t ∧ Forall P t)
         (split U (re_sub_not_word_space U (strip U (lower U s)))).
Proof.
  intros HQ Hsig Hl.
  pose proof (do_lower_Forall U P Q [] s HQ Hsig Hl) as H.
  apply (strip_Forall U), (re_sub_Forall U) in H.
  apply (split_from_Forall U _ []) in H; [|constructor].
  eapply Forall_impl; [exact H|]. intros t [Hne Ht]. repeat split; [done| |].
  - eapply Forall_impl; [exact Ht|]. intros c [[_ Hw] Hsp]. split; [|done].
    rewrite Hsp, orb_false_r in Hw. done.
  - eapply Forall_impl; [exact Ht|]. by intros c [[? _] _].
Qed.

Lemma tokens_no_space (P : str → Prop) (tokens : list str) :
  Forall (λ t, is_token U t ∧ P t) tokens →
  Forall (λ t, t ≠ [] ∧ Forall (λ c, is_space U c = false) t) tokens.
Proof.
  intros H. eapply Forall_impl; [exact H|]. intros t [[Hne Ht] _].
  split; [done|]. eapply Forall_impl; [exact Ht|]. by intros c [_ ?].
Qed.

End Preprocess.

(** * The sample table is well formed *)

Lemma sample_lower_cases (c : codepoint) :
  sample_to_lower_full c = [c]
  ∨ (sample_to_lower_full c = [c + 0x20]
     ∧ (0x41 ≤ c ≤ 0x5A ∨ 0xC0 ≤ c ≤ 0xD6 ∨ 0xD8 ≤ c ≤ 0xDE))
  ∨ (sample_to_lower_full c = [0x69; 0x307] ∧ c = 0x130)
  ∨ c = CAPITAL_SIGMA.
Proof.
  unfold sample_to_lower_full, in_range, CAPITAL_SIGMA.
  destruct (N.leb_spec 0x41 c), (N.leb_spec c 0x5A); simpl;
    [right; left; split; [done|lia] | ..].
  all: destruct (N.leb_spec 0xC0 c), (N.leb_spec c 0xD6); simpl;
    [right; left; split; [done|lia] | ..].
  all: destruct (N.leb_spec 0xD8 c), (N.leb_spec c 0xDE); simpl;
    [right; left; split; [done|lia] | ..].
  all: destruct (N.eqb_spec c 0x130); [right; right; left; by split|].
  all: destruct (N.eqb_spec c 0x3A3); [by do 3 right | by left].
Qed.

Lemma sample_lower_fixed (d : codepoint) :
  ¬ (0x41 ≤ d ≤ 0x5A ∨ 0xC0 ≤ d ≤ 0xD6 ∨ 0xD8 ≤ d ≤ 0xDE) →
  d ≠ 0x130 → d ≠ CAPITAL_SIGMA → lower_fixed ucd_sample d.
Proof.
  intros Hup H130 Hsig. split; [done|].
  destruct (sample_lower_cases d) as [H|[[_ H]|[[_ H]|H]]]; done.
Qed.

Lemma ucd_sample_wf : ucd_wf ucd_sample.
Proof.
  split; try (apply sample_lower_fixed; unfold SPACE, FINAL_SIGMA, SMALL_SIGMA,
                CAPITAL_SIGMA; lia).
  - reflexivity.
  - intros c d Hc Hd. simpl in Hd.
    destruct (sample_lower_cases c) as [H|[[H Hr]|[[H _]|H]]]; [| | |done];
      rewrite H in Hd.
    + apply list_elem_of_singleton in Hd as ->. by split.
    + apply list_elem_of_singleton in Hd as ->.
      apply sample_lower_fixed; unfold CAPITAL_SIGMA; lia.
    + apply elem_of_cons in Hd as [->|Hd];
        [|apply list_elem_of_singleton in Hd as ->];
        apply sample_lower_fixed; unfold CAPITAL_SIGMA; lia.
Qed.

(** * The preprocessor *)

Section PreprocessTheorems.
Context (U : ucd).

Lemma preprocess_question_shape (s : str) :
  ucd_wf U →
  ∃ tokens, preprocess_question U s = join [SPACE] tokens
            ∧ Forall (λ t, is_token U t ∧ Forall (lower_fixed U) t) tokens.
Proof.
  intros [_ _ Hf Hs Hl]. eexists. split; [reflexivity|].
  apply (preprocess_tokens U _ (λ _, True));
    [by apply Forall_true | by intros _ | intros c d _; apply Hl].
Qed.

Lemma tokens_single_spaced (P : str → Prop) (tokens : list str) :
  Forall (λ t, is_token U t ∧ P t) tokens →
  single_spaced U (join [SPACE] tokens).
Proof.
  intros H. apply tokens_no_space in H. repeat split.
  - intros c. by apply join_head.
  - intros c. by apply join_last.
  - intros i a b. by apply join_no_double_space.
Qed.

End PreprocessTheorems.

(** The examples of the specification, run on the sample table. *)
Example preprocess_hello :
  preprocess_question ucd_sample (py "  Hello, World!!  ") = py "hello world".
Proof. reflexivity. Qed.

Example preprocess_france :
  preprocess_question ucd_sample (py "What's the Capital of France?")
  = py "whats the capital of france".
Proof. reflexivity. Qed.

(** C5: for every input string [s],
    [preprocess_question (preprocess_question s) = preprocess_question s],
    over every Unicode table in which lower-casing is stable and U+0020
    is a caseless white-space character. *)
Theorem preprocess_question_idempotent (U : ucd) (s : str) :
  ucd_wf U →
  preprocess_question U (preprocess_question U s) = preprocess_question U s.
Proof.
  intros HU.
  destruct (preprocess_question_shape U s HU) as (tokens & Hr & Htoks).
  pose proof (tokens_single_spaced U _ tokens Htoks) as (Hhead & Hlast & _).
  pose proof (tokens_no_space U _ tokens Htoks) as Hns.
  rewrite Hr. unfold preprocess_question at 1.
  change (py " ") with [SPACE].
  assert (Hfix : Forall (lower_fixed U) (join [SPACE] tokens)).
  { apply join_Forall; [apply HU|].
    eapply Forall_impl; [exact Htoks|]. by intros t [_ ?]. }
  assert (Hkeep : Forall (λ c, is_word U c || is_space U c = true)
                         (join [SPACE] tokens)).
  { apply join_Forall.
    - rewrite (wf_space U HU). apply orb_true_r.
    - eapply Forall_impl; [exact Htoks|]. intros t [[_ Ht] _].
      eapply Forall_impl; [exact Ht|]. intros c [-> _]. done. }
  unfold lower. rewrite do_lower_fixed by done.
  rewrite strip_id by done.
  rewrite re_sub_id by done.
  rewrite split_join; [done | apply HU | done].
Qed.

Lemma preprocess_question_idempotent_witness :
  ucd_wf ucd_sample
  ∧ preprocess_question ucd_sample
      (preprocess_question ucd_sample (py "What's the Capital of France?"))
    = preprocess_question ucd_sample (py "What's the Capital of France?").
Proof.
  split; [exact ucd_sample_wf|].
  apply (preprocess_question_idempotent ucd_sample), ucd_sample_wf.
Defined.

(** C6, as the program has it: [preprocess_question] is a total function;
    every character of its result is either U+0020 or a word character
    (a Unicode letter or number, or the underscore) that is no white
    space, and lower-casing leaves every character unchanged; the result
    neither starts nor ends with white space and has no two white-space
    characters in a row; the empty string gives the empty string.  The
    specification's "all letters lowercase" is weakened to "unchanged by
    lower-casing": a letter without a lower-case form stays as it is. *)
Theorem preprocess_question_result (U : ucd) (s : str) :
  ucd_wf U →
  let r := preprocess_question U s in
  Forall (λ c, c = SPACE ∨ (is_word U c = true ∧ is_space U c = false)) r
  ∧ Forall (lower_fixed U) r
  ∧ single_spaced U r
  ∧ preprocess_question U [] = [].
Proof.
  intros HU r.
  destruct (preprocess_question_shape U s HU) as (tokens & Hr & Htoks).
  subst r. rewrite Hr. repeat split.
  - apply join_Forall; [by left|].
    eapply Forall_impl; [exact Htoks|]. intros t [[_ Ht] _].
    eapply Forall_impl; [exact Ht|]. intros c Hc. by right.
  - apply join_Forall; [apply HU|].
    eapply Forall_impl; [exact Htoks|]. by intros t [_ ?].
  - by apply (tokens_single_spaced U _ tokens Htoks).
  - by apply (tokens_single_spaced U _ tokens Htoks).
  - by apply (tokens_single_spaced U _ tokens Htoks).
Qed.

Lemma preprocess_question_result_witness :
  ucd_wf ucd_sample
  ∧ Forall (λ c, c = SPACE
                 ∨ (is_word ucd_sample c = true ∧ is_space ucd_sample c = false))
      (preprocess_question ucd_sample (py "  Hello, World!!  "))
  ∧ Forall (lower_fixed ucd_sample)
      (preprocess_question ucd_sample (py "  Hello, World!!  "))
  ∧ single_spaced ucd_sample
      (preprocess_question ucd_sample (py "  Hello, World!!  "))
  ∧ preprocess_question ucd_sample [] = [].
Proof.
  split; [exact ucd_sample_wf|].
  exact (preprocess_question_result ucd_sample (py "  Hello, World!!  ")
           ucd_sample_wf).
Defined.

(** On ASCII questions the specification's wording holds as it stands:
    the word characters that survive lower-casing are [a-z], [0-9] and
    the underscore. *)
Lemma sample_ascii_word (c : codepoint) :
  c < 128 → is_word ucd_sample c = true → lower_fixed ucd_sample c →
  spec_char ucd_sample c = true
  ∧ (is_alpha ucd_sample c = true → is_lowercase ucd_sample c = true).
Proof.
  intros Hc. assert (∃ n, (n < 128)%nat ∧ c = N.of_nat n) as (n & Hn & ->).
  { exists (N.to_nat c). split; lia. }
  clear Hc. revert Hn.
  do 128 (destruct n as [|n];
    [intros _; vm_compute; intros Hw [_ Hf];
     first [discriminate Hw | discriminate Hf
           | split; [reflexivity | intros Ha; first [reflexivity | discriminate Ha]]]
    |]).
  lia.
Qed.

Lemma sample_ascii_lower (c d : codepoint) :
  c < 128 → d ∈ to_lower_full ucd_sample c →
  d < 128 ∧ lower_fixed ucd_sample d.
Proof.
  intros Hc Hd. split; [|apply (wf_lower _ ucd_sample_wf c d);
                          [unfold CAPITAL_SIGMA; lia | done]].
  simpl in Hd.
  destruct (sample_lower_cases c) as [H|[[H Hr]|[[_ H]|H]]];
    [rewrite H in Hd; apply list_elem_of_singleton in Hd as ->..| |].
  - done.
  - lia.
  - lia.
  - unfold CAPITAL_SIGMA in H. lia.
Qed.

Lemma preprocess_question_ascii (s : str) :
  Forall (λ c, c < 128) s → preprocessed_as_specified ucd_sample s.
Proof.
  intros Hs. unfold preprocessed_as_specified, preprocess_question.
  change (py " ") with [SPACE].
  pose proof (preprocess_tokens ucd_sample
                (λ c, c < 128 ∧ lower_fixed ucd_sample c) (λ c, c < 128) s Hs)
    as Htoks.
  lapply Htoks; [clear Htoks; intros Htoks|unfold CAPITAL_SIGMA; lia].
  lapply Htoks; [clear Htoks; intros Htoks
                |intros c d Hc _ Hd; by apply (sample_ascii_lower c d)].
  assert (Hall : Forall (λ c, spec_char ucd_sample c = true
                   ∧ (is_alpha ucd_sample c = true
                      → is_lowercase ucd_sample c = true))
            (join [SPACE] (split ucd_sample (re_sub_not_word_space ucd_sample
               (strip ucd_sample (lower ucd_sample s)))))).
  { apply join_Forall; [by split|].
    eapply Forall_impl; [exact Htoks|]. intros t [[_ Hw] Ht].
    apply Forall_forall. intros c Hc.
    destruct (proj1 (Forall_forall _ _) Hw c Hc) as [Hword _].
    destruct (proj1 (Forall_forall _ _) Ht c Hc) as [Hlt Hfix].
    by apply sample_ascii_word. }
  split; [|split].
  - eapply Forall_impl; [exact Hall|]. by intros c [? _].
  - eapply Forall_impl; [exact Hall|]. by intros c [_ ?].
  - by apply (tokens_single_spaced ucd_sample _ _ Htoks).
Qed.

(** U+211D (DOUBLE-STRUCK CAPITAL R) is an upper-case letter without a
    lower-case form: [str.lower] keeps it, [\w] matches it, and so it
    reaches the result. *)
Example preprocess_double_struck_R :
  preprocess_question ucd_sample [0x211D] = [0x211D]
  ∧ is_alpha ucd_sample 0x211D = true
  ∧ is_uppercase ucd_sample 0x211D = true
  ∧ is_lowercase ucd_sample 0x211D = false.
Proof. repeat split. Qed.

(** C6 as the specification words it fails on the one-letter question
    U+211D: the result holds a letter that is not lower case. *)
Lemma preprocess_question_keeps_capital :
  ¬ preprocessed_as_specified ucd_sample [0x211D].
Proof.
  intros (Hchars & _). apply Forall_cons in Hchars as [Hc _]. discriminate Hc.
Qed.

(** * The answer service *)

(** ** The result dict *)

Lemma answer_result_error b a r :
  answer_result b a r !! py "error" = Some (PBool b).
Proof. reflexivity. Qed.

Lemma answer_result_answer b a r :
  answer_result b a r !! py "answer" = Some a.
Proof. reflexivity. Qed.

Lemma answer_result_raw_response b a r :
  answer_result b a r !! py "raw_response" = Some (PStr r).
Proof. reflexivity. Qed.

Lemma answer_result_dom b a r :
  dom (answer_result b a r) = {[py "error"; py "answer"; py "raw_response"]}.
Proof.
  unfold answer_result, dict_literal. simpl.
  rewrite !dom_insert_L, dom_empty_L. set_solver.
Qed.

(** ** Exceptions of the operations on values *)

Lemma request_exception_is_exception e :
  is_request_exception e = true → is_exception e = true.
Proof. unfold is_request_exception, is_exception. by destruct (exn_class_of e). Qed.

Lemma except_outcome_caught e :
  is_exception e = true → except_outcome e = inr (except_result e).
Proof. intros He. unfold except_outcome. by rewrite He, orb_true_r. Qed.

Lemma except_outcome_escapes e :
  is_exception e = false → except_outcome e = inl e.
Proof.
  intros He. unfold except_outcome. rewrite He, orb_false_r.
  destruct (is_request_exception e) eqn:Hr; [|done].
  apply request_exception_is_exception in Hr. congruence.
Qed.

Lemma py_get_exception v key dflt e :
  py_get v key dflt = inl e → is_exception e = true.
Proof. destruct v; intros [= <-]; reflexivity. Qed.

Lemma py_index0_exception v e :
  py_index0 v = inl e → is_exception e = true.
Proof.
  destruct v as [| | | |s|l|d]; try (intros [= <-]; reflexivity).
  - destruct s; intros [= <-]; reflexivity.
  - destruct l; intros [= <-]; reflexivity.
Qed.

(** Whatever the extraction raises derives from [Exception]. *)
Lemma extract_answer_text_exception result e :
  extract_answer_text result = inl e → is_exception e = true.
Proof.
  unfold extract_answer_text. cbv beta iota delta [mbind outcome_bind].
  destruct (py_get result _ _) as [e1|v1] eqn:E1;
    [intros [= <-]; by apply py_get_exception in E1|].
  destruct (py_index0 v1) as [e2|v2] eqn:E2;
    [intros [= <-]; by apply py_index0_exception in E2|].
  destruct (py_get v2 _ _) as [e3|v3] eqn:E3;
    [intros [= <-]; by apply py_get_exception in E3|].
  destruct (py_get v3 _ _) as [e4|v4] eqn:E4;
    [intros [= <-]; by apply py_get_exception in E4|].
  destruct (py_index0 v4) as [e5|v5] eqn:E5;
    [intros [= <-]; by apply py_index0_exception in E5|].
  apply py_get_exception.
Qed.

(** ** One lemma per return path *)

Ltac run_generate_answer Hkey :=
  unfold generate_answer; rewrite Hkey;
  cbv beta iota delta [try_except except_clauses requests_post mbind M_bind
                       mret M_ret emit lift negb].

Ltac by_clause e :=
  unfold except_outcome, except_result;
  destruct (is_request_exception e), (is_exception e); reflexivity.

Section AnswerPaths.
Context (key : option str) (net : network) (q : str) (tr : list event).

Lemma generate_answer_no_key :
  key_missing key = true →
  generate_answer key net q tr =
    (inr (answer_result true
       (PStr (py "GEMINI_API_KEY not configured on the server. Please check your .env file or environment variables."))
       (py "N/A")), tr).
Proof. intros Hkey. unfold generate_answer. by rewrite Hkey. Qed.

Lemma generate_answer_post_outcome e :
  key_missing key = false →
  net (gemini_request key q) = inl e →
  generate_answer key net q tr =
    (except_outcome e, tr ++ [HttpPost (gemini_request key q)]).
Proof.
  intros Hkey Hnet. run_generate_answer Hkey. rewrite Hnet. by_clause e.
Qed.

Lemma generate_answer_post_raises e :
  key_missing key = false →
  net (gemini_request key q) = inl e →
  is_exception e = true →
  generate_answer key net q tr =
    (inr (except_result e), tr ++ [HttpPost (gemini_request key q)]).
Proof.
  intros Hkey Hnet He.
  by rewrite (generate_answer_post_outcome e), except_outcome_caught.
Qed.

Lemma generate_answer_bad_status resp :
  key_missing key = false →
  net (gemini_request key q) = inr resp →
  status_code resp ≠ 200%Z →
  generate_answer key net q tr =
    (inr (answer_result true
       (PStr (py "API Error: Status " ++ str_of_int (status_code resp)
              ++ py ". Response: " ++ text resp))
       (text resp)),
     tr ++ [HttpPost (gemini_request key q)]).
Proof.
  intros Hkey Hnet Hst. run_generate_answer Hkey. rewrite Hnet.
  apply Z.eqb_neq in Hst. by rewrite Hst.
Qed.

Lemma generate_answer_json_outcome resp e :
  key_missing key = false →
  net (gemini_request key q) = inr resp →
  status_code resp = 200%Z →
  json resp = inl e →
  generate_answer key net q tr =
    (except_outcome e, tr ++ [HttpPost (gemini_request key q)]).
Proof.
  intros Hkey Hnet Hst Hjson. run_generate_answer Hkey.
  rewrite Hnet, Hst, Z.eqb_refl, Hjson. cbv iota beta. by_clause e.
Qed.

Lemma generate_answer_json_raises resp e :
  key_missing key = false →
  net (gemini_request key q) = inr resp →
  status_code resp = 200%Z →
  json resp = inl e →
  is_exception e = true →
  generate_answer key net q tr =
    (inr (except_result e), tr ++ [HttpPost (gemini_request key q)]).
Proof.
  intros Hkey Hnet Hst Hjson He.
  by rewrite (generate_answer_json_outcome resp e), except_outcome_caught.
Qed.

Lemma generate_answer_extract_raises resp result e :
  key_missing key = false →
  net (gemini_request key q) = inr resp →
  status_code resp = 200%Z →
  json resp = inr result →
  extract_answer_text result = inl e →
  generate_answer key net q tr =
    (inr (except_result e), tr ++ [HttpPost (gemini_request key q)]).
Proof.
  intros Hkey Hnet Hst Hjson Hex. run_generate_answer Hkey.
  rewrite Hnet, Hst, Z.eqb_refl, Hjson. cbv iota beta. rewrite Hex.
  rewrite <- (except_outcome_caught e)
    by (by apply (extract_answer_text_exception result)).
  by_clause e.
Qed.

Lemma generate_answer_success resp result answer_text :
  key_missing key = false →
  net (gemini_request key q) = inr resp →
  status_code resp = 200%Z →
  json resp = inr result →
  extract_answer_text result = inr answer_text →
  generate_answer key net q tr =
    (inr (answer_result false answer_text (text resp)),
     tr ++ [HttpPost (gemini_request key q)]).
Proof.
  intros Hkey Hnet Hst Hjson Hex. run_generate_answer Hkey.
  rewrite Hnet, Hst, Z.eqb_refl, Hjson. cbv iota beta. by rewrite Hex.
Qed.

End AnswerPaths.

Lemma except_result_shape e :
  ∃ s, except_result e = answer_result true (PStr s) (exn_str e).
Proof. unfold except_result. destruct (is_request_exception e); eauto. Qed.

(** What a call comes to: a result dict, whose answer is a string unless
    it is what the extraction found in a 200 response, or an exception
    outside [Exception] that the call or the parsing raised. *)
Lemma generate_answer_outcome key net q tr :
  ∃ o tr',
    generate_answer key net q tr = (o, tr')
    ∧ match o with
      | inl e => escapes key net q e
      | inr d =>
          ∃ b a r,
            d = answer_result b a r
            ∧ (b = true → is_str a)
            ∧ (b = false →
                 ∃ resp result,
                   net (gemini_request key q) = inr resp
                   ∧ status_code resp = 200%Z
                   ∧ json resp = inr result
                   ∧ extract_answer_text result = inr a)
      end.
Proof.
  assert (Hcaught : ∀ e, ∃ b a r,
            except_result e = answer_result b a r
            ∧ (b = true → is_str a)
            ∧ (b = false →
                 ∃ resp result,
                   net (gemini_request key q) = inr resp
                   ∧ status_code resp = 200%Z
                   ∧ json resp = inr result
                   ∧ extract_answer_text result = inr a)).
  { intros e. destruct (except_result_shape e) as [s Hs].
    exists true, (PStr s), (exn_str e). split; [done|].
    split; [by eexists | done]. }
  destruct (key_missing key) eqn:Hkey.
  { do 2 eexists. split; [by apply generate_answer_no_key|].
    do 3 eexists. split; [done|]. split; [by eexists | done]. }
  destruct (net (gemini_request key q)) as [e|resp] eqn:Hnet.
  { do 2 eexists. split; [by apply (generate_answer_post_outcome _ _ _ _ e)|].
    destruct (is_exception e) eqn:He.
    - rewrite except_outcome_caught by done. apply Hcaught.
    - rewrite except_outcome_escapes by done. repeat split; auto. }
  destruct (decide (status_code resp = 200%Z)) as [Hst|Hst]; cycle 1.
  { do 2 eexists. split; [by apply generate_answer_bad_status|].
    do 3 eexists. split; [done|]. split; [by eexists | done]. }
  destruct (json resp) as [e|result] eqn:Hjson.
  { do 2 eexists.
    split; [by apply (generate_answer_json_outcome _ _ _ _ resp e)|].
    destruct (is_exception e) eqn:He.
    - rewrite except_outcome_caught by done. apply Hcaught.
    - rewrite except_outcome_escapes by done. repeat split; eauto. }
  destruct (extract_answer_text result) as [e|a] eqn:Hex.
  { do 2 eexists.
    split; [by apply (generate_answer_extract_raises _ _ _ _ resp result e)|].
    apply Hcaught. }
  do 2 eexists.
  split; [by apply (generate_answer_success _ _ _ _ resp result a)|].
  exists false, a, (text resp). split; [done|]. split; [done|].
  intros _. by exists resp, result.
Qed.

Lemma only_exceptions_no_escape key net q e :
  only_exceptions net → ¬ escapes key net q e.
Proof.
  intros Hnet (_ & He & [Hr|(resp & Hr & _ & Hj)]);
    specialize (Hnet (gemini_request key q)); rewrite Hr in Hnet;
    [|rewrite Hj in Hnet]; congruence.
Qed.

(** When nothing outside [Exception] is raised, every call returns a
    result dict. *)
Lemma generate_answer_returns key net q tr :
  only_exceptions net →
  ∃ b a r tr',
    generate_answer key net q tr = (inr (answer_result b a r), tr')
    ∧ (b = true → is_str a)
    ∧ (b = false →
         ∃ resp result,
           net (gemini_request key q) = inr resp
           ∧ status_code resp = 200%Z
           ∧ json resp = inr result
           ∧ extract_answer_text result = inr a).
Proof.
  intros Hnet.
  destruct (generate_answer_outcome key net q tr) as ([e|d] & tr' & Hrun & H).
  - by apply only_exceptions_no_escape in H.
  - destruct H as (b & a & r & -> & Htrue & Hfalse). by exists b, a, r, tr'.
Qed.

(** ** The extraction *)

Lemma extract_answer_text_found d c ct p t cs ps :
  d !! py "candidates" = Some (PList (PDict c :: cs)) →
  c !! py "content" = Some (PDict ct) →
  ct !! py "parts" = Some (PList (PDict p :: ps)) →
  p !! py "text" = Some t →
  extract_answer_text (PDict d) = inr t.
Proof.
  intros Hd Hc Hct Hp. unfold extract_answer_text.
  cbv beta iota delta [mbind outcome_bind py_get py_index0 default from_option id].
  rewrite Hd. cbv beta iota. rewrite Hc. cbv beta iota.
  rewrite Hct. cbv beta iota. by rewrite Hp.
Qed.

Ltac run_extract :=
  unfold extract_answer_text;
  cbv beta iota delta [mbind outcome_bind py_get py_index0 default from_option id].

(** A key that is missing is replaced by its default, down to the
    placeholder. *)
Lemma extract_answer_text_no_candidates d :
  d !! py "candidates" = None →
  extract_answer_text (PDict d) = inr (PStr (py "No answer generated.")).
Proof. intros Hd. run_extract. by rewrite Hd. Qed.

Lemma extract_answer_text_no_content d c cs :
  d !! py "candidates" = Some (PList (PDict c :: cs)) →
  c !! py "content" = None →
  extract_answer_text (PDict d) = inr (PStr (py "No answer generated.")).
Proof.
  intros Hd Hc. run_extract. rewrite Hd. cbv beta iota. by rewrite Hc.
Qed.

Lemma extract_answer_text_no_parts d c cs ct :
  d !! py "candidates" = Some (PList (PDict c :: cs)) →
  c !! py "content" = Some (PDict ct) →
  ct !! py "parts" = None →
  extract_answer_text (PDict d) = inr (PStr (py "No answer generated.")).
Proof.
  intros Hd Hc Hct. run_extract. rewrite Hd. cbv beta iota.
  rewrite Hc. cbv beta iota. by rewrite Hct.
Qed.

Lemma extract_answer_text_no_text d c cs ct p ps :
  d !! py "candidates" = Some (PList (PDict c :: cs)) →
  c !! py "content" = Some (PDict ct) →
  ct !! py "parts" = Some (PList (PDict p :: ps)) →
  p !! py "text" = None →
  extract_answer_text (PDict d) = inr (PStr (py "No answer generated.")).
Proof.
  intros Hd Hc Hct Hp. run_extract. rewrite Hd. cbv beta iota.
  rewrite Hc. cbv beta iota. rewrite Hct. cbv beta iota. by rewrite Hp.
Qed.

(** A list that is there but empty raises instead. *)
Lemma extract_answer_text_empty_candidates d :
  d !! py "candidates" = Some (PList []) →
  extract_answer_text (PDict d)
  = raise IndexError (py "list index out of range").
Proof. intros Hd. run_extract. by rewrite Hd. Qed.

Lemma extract_answer_text_empty_parts d c cs ct :
  d !! py "candidates" = Some (PList (PDict c :: cs)) →
  c !! py "content" = Some (PDict ct) →
  ct !! py "parts" = Some (PList []) →
  extract_answer_text (PDict d)
  = raise IndexError (py "list index out of range").
Proof.
  intros Hd Hc Hct. run_extract. rewrite Hd. cbv beta iota.
  rewrite Hc. cbv beta iota. by rewrite Hct.
Qed.

(** ** The claims about the answer service *)

(** C1, as the program has it: for every key, query, provider behaviour
    and trace, [generate_answer] either returns a dict with exactly the
    keys [error], [answer] and [raw_response], or lets an exception
    leave, and the second only for an exception that does not derive from
    [Exception] (a [KeyboardInterrupt], a [SystemExit]), raised by the
    call or by [response.json()] on a 200 response, which no [except]
    clause catches; every such exception does leave.  No exception that
    derives from [Exception] reaches the caller.  In the dict, [error] is
    a bool and [raw_response] a string; [answer] is a string whenever
    [error] is true, and when [error] is false it is the value the
    extraction found in the provider's 200 response, of whatever JSON
    type that value is. *)
Theorem generate_answer_well_formed key net q tr :
  (∃ o tr',
     generate_answer key net q tr = (o, tr')
     ∧ match o with
       | inl e => escapes key net q e
       | inr d =>
           dom d = {[py "error"; py "answer"; py "raw_response"]}
           ∧ ∃ b a r,
               d !! py "error" = Some (PBool b)
               ∧ d !! py "answer" = Some a
               ∧ d !! py "raw_response" = Some (PStr r)
               ∧ (b = true → is_str a)
               ∧ (b = false →
                    ∃ resp result,
                      net (gemini_request key q) = inr resp
                      ∧ status_code resp = 200%Z
                      ∧ json resp = inr result
                      ∧ extract_answer_text result = inr a)
       end)
  ∧ (∀ e, escapes key net q e →
          generate_answer key net q tr
          = (inl e, tr ++ [HttpPost (gemini_request key q)])).
Proof.
  split.
  - destruct (generate_answer_outcome key net q tr)
      as ([e|d] & tr' & Hrun & H).
    + by exists (inl e), tr'.
    + destruct H as (b & a & r & -> & Htrue & Hfalse).
      exists (inr (answer_result b a r)), tr'. split; [done|].
      split; [apply answer_result_dom|]. exists b, a, r.
      by rewrite answer_result_error, answer_result_answer,
        answer_result_raw_response.
  - intros e (Hkey & He & [Hr|(resp & Hr & Hst & Hj)]).
    + by rewrite (generate_answer_post_outcome _ _ _ _ e),
        except_outcome_escapes.
    + by rewrite (generate_answer_json_outcome _ _ _ _ resp e),
        except_outcome_escapes.
Qed.

(** A [KeyboardInterrupt] raised inside [requests.post] is caught by
    neither [except] clause and reaches the caller. *)
Example generate_answer_interrupted q tr :
  generate_answer (Some (py "k")) provider_interrupted q tr
  = (raise KeyboardInterrupt (py ""),
     tr ++ [HttpPost (gemini_request (Some (py "k")) q)]).
Proof.
  by rewrite (generate_answer_post_outcome _ _ _ _
                (Exn KeyboardInterrupt (py ""))).
Qed.

(** C1 as the specification words it fails when the provider's text field
    holds a number: the answer is that number, not a string. *)
Lemma generate_answer_numeric_answer :
  ¬ generate_answer_as_specified (Some (py "k")) provider_numeric_text
      (py "q") [].
Proof.
  intros (d & tr' & Hrun & _ & _ & (a & Ha & s & Hs) & _).
  rewrite (generate_answer_success _ _ _ _ response_numeric_text _ (PInt 5))
    in Hrun by reflexivity.
  injection Hrun as <- _. rewrite answer_result_answer in Ha.
  injection Ha as <-. vm_compute in Hs. discriminate Hs.
Qed.

(** The examples of the specification: a well-formed 200 response gives
    its text, a response without the expected fields the placeholder. *)
Example generate_answer_paris q tr :
  generate_answer (Some (py "k")) provider_paris q tr
  = (inr (answer_result false (PStr (py "Paris")) (text response_paris)),
     tr ++ [HttpPost (gemini_request (Some (py "k")) q)]).
Proof. eapply (generate_answer_success _ _ _ _ response_paris); reflexivity. Qed.

Lemma generate_answer_found key net q tr resp d c ct p t cs ps :
  key_missing key = false →
  net (gemini_request key q) = inr resp →
  status_code resp = 200%Z →
  json resp = inr (PDict d) →
  d !! py "candidates" = Some (PList (PDict c :: cs)) →
  c !! py "content" = Some (PDict ct) →
  ct !! py "parts" = Some (PList (PDict p :: ps)) →
  p !! py "text" = Some t →
  generate_answer key net q tr
  = (inr (answer_result false t (text resp)),
     tr ++ [HttpPost (gemini_request key q)]).
Proof.
  intros Hkey Hnet Hst Hjson Hd Hc Hct Hp.
  apply (generate_answer_success _ _ _ _ resp (PDict d)); try done.
  by apply (extract_answer_text_found d c ct p t cs ps).
Qed.

(** C2 at the response [{"candidates": []}] with status 200: the first
    candidate is absent, and the program answers with [error] true and
    the message of the [IndexError] instead of the placeholder. *)
Theorem generate_answer_no_candidate q tr :
  generate_answer (Some (py "k")) provider_no_candidate q tr
  = (inr (answer_result true
            (PStr (py "An unexpected server error occurred: list index out of range"))
            (py "list index out of range")),
     tr ++ [HttpPost (gemini_request (Some (py "k")) q)]).
Proof.
  eapply (generate_answer_extract_raises _ _ _ _ response_no_candidate _
            (Exn IndexError (py "list index out of range")));
    reflexivity.
Qed.

(** C3: without an API key, [generate_answer q] returns [error] true, the
    configuration-missing message as [answer] and ["N/A"] as
    [raw_response], whatever the query and the provider, and the trace
    gains no event: no outbound call is made. *)
Theorem generate_answer_key_absent net q tr :
  ∃ d,
    generate_answer None net q tr = (inr d, tr)
    ∧ d !! py "error" = Some (PBool true)
    ∧ d !! py "answer" = Some (PStr (py
        "GEMINI_API_KEY not configured on the server. Please check your .env file or environment variables."))
    ∧ d !! py "raw_response" = Some (PStr (py "N/A")).
Proof. eexists. split; [by apply generate_answer_no_key|]. done. Qed.

(** C9: an API key that is the empty string is treated as an absent one:
    the same result, [error] true and [raw_response] ["N/A"], and no
    outbound call. *)
Theorem generate_answer_key_empty net q tr :
  generate_answer (Some (py "")) net q tr = generate_answer None net q tr
  ∧ ∃ d,
      generate_answer (Some (py "")) net q tr = (inr d, tr)
      ∧ d !! py "error" = Some (PBool true)
      ∧ d !! py "raw_response" = Some (PStr (py "N/A")).
Proof.
  split; [by rewrite !generate_answer_no_key|].
  eexists. split; [by apply generate_answer_no_key|]. done.
Qed.

(** C7: with a key configured, when the provider answers with a status
    other than 200, [generate_answer] returns [error] true, an [answer]
    made of the status code and the body text, and the body text as
    [raw_response]. *)
Theorem generate_answer_http_error key net q tr resp :
  key_missing key = false →
  net (gemini_request key q) = inr resp →
  status_code resp ≠ 200%Z →
  ∃ d,
    generate_answer key net q tr
    = (inr d, tr ++ [HttpPost (gemini_request key q)])
    ∧ d !! py "error" = Some (PBool true)
    ∧ d !! py "answer" = Some (PStr
        (py "API Error: Status " ++ str_of_int (status_code resp)
         ++ py ". Response: " ++ text resp))
    ∧ d !! py "raw_response" = Some (PStr (text resp)).
Proof.
  intros Hkey Hnet Hst. eexists.
  split; [by apply generate_answer_bad_status|].
  by rewrite answer_result_error, answer_result_answer,
    answer_result_raw_response.
Qed.

Lemma generate_answer_http_error_witness :
  ∃ d,
    generate_answer (Some (py "k")) provider_429 (py "q") []
    = (inr d, [HttpPost (gemini_request (Some (py "k")) (py "q"))])
    ∧ d !! py "error" = Some (PBool true)
    ∧ d !! py "answer" = Some (PStr
        (py "API Error: Status 429. Response: "
         ++ text response_429))
    ∧ d !! py "raw_response" = Some (PStr (text response_429)).
Proof.
  apply (generate_answer_http_error (Some (py "k")) provider_429 (py "q") []
           response_429); [reflexivity | reflexivity | discriminate].
Defined.

(** C8: with a key configured, when the outbound call raises a
    [RequestException] (no route, timeout, DNS failure, reset),
    [generate_answer] returns [error] true, the connection-error message
    followed by [str(e)] as [answer], and [str(e)] as [raw_response]. *)
Theorem generate_answer_transport_error key net q tr e :
  key_missing key = false →
  net (gemini_request key q) = inl e →
  is_request_exception e = true →
  ∃ d,
    generate_answer key net q tr
    = (inr d, tr ++ [HttpPost (gemini_request key q)])
    ∧ d !! py "error" = Some (PBool true)
    ∧ d !! py "answer" = Some (PStr
        (py "Connection Error: Could not reach the API endpoint. " ++ exn_str e))
    ∧ d !! py "raw_response" = Some (PStr (exn_str e)).
Proof.
  intros Hkey Hnet He. eexists.
  split; [apply generate_answer_post_raises;
            [done | done | by apply request_exception_is_exception]|].
  unfold except_result. rewrite He.
  by rewrite answer_result_error, answer_result_answer,
    answer_result_raw_response.
Qed.

Lemma generate_answer_transport_error_witness :
  ∃ d,
    generate_answer (Some (py "k")) provider_unreachable (py "q") []
    = (inr d, [HttpPost (gemini_request (Some (py "k")) (py "q"))])
    ∧ d !! py "error" = Some (PBool true)
    ∧ d !! py "answer" = Some (PStr
        (py "Connection Error: Could not reach the API endpoint. Connection refused"))
    ∧ d !! py "raw_response" = Some (PStr (py "Connection refused")).
Proof.
  apply (generate_answer_transport_error (Some (py "k")) provider_unreachable
           (py "q") [] (Exn RequestException (py "Connection refused")));
    reflexivity.
Defined.

(** * The request handler *)

Lemma lstrip_all_space U (s : str) :
  Forall (λ c, is_space U c = true) s → lstrip U s = [].
Proof. induction 1 as [|c s Hc _ IH]; simpl; [done | by rewrite Hc]. Qed.

Lemma strip_all_space U (s : str) :
  Forall (λ c, is_space U c = true) s → strip U s = [].
Proof. intros Hs. unfold strip. by rewrite lstrip_all_space. Qed.

Lemma no_question_body_error : no_question_body !! py "error" = Some (PBool true).
Proof. reflexivity. Qed.

Lemma no_question_body_processed :
  no_question_body !! py "processed" = Some (PStr (py "")).
Proof. reflexivity. Qed.

Lemma answer_body_error e m p r : answer_body e m p r !! py "error" = Some e.
Proof. reflexivity. Qed.

Lemma answer_body_processed e m p r :
  answer_body e m p r !! py "processed" = Some (PStr p).
Proof. reflexivity. Qed.

Ltac run_handle_answer :=
  unfold handle_answer;
  cbv beta iota delta [mbind M_bind mret M_ret emit lift py_get py_strip].

Section HandlerPaths.
Context (U : ucd) (key : option str) (net : network).
Context (d : gmap str pyval) (s : str) (tr : list event).
Hypothesis question_is : default (PStr (py "")) (d !! py "question") = PStr s.

(** A question that is empty once stripped is turned down at once. *)
Lemma handle_answer_blank :
  strip U s = [] →
  handle_answer U key net (PDict d) tr = (inr (no_question_body, 400%Z), tr).
Proof.
  intros Hs. run_handle_answer. rewrite question_is. cbv beta iota. by rewrite Hs.
Qed.

(** Any other question goes through the preprocessor and the answer
    service, and the status follows the error flag of the answer. *)
Lemma handle_answer_asked b a r tr' :
  strip U s ≠ [] →
  generate_answer key net (preprocess_question U (strip U s))
    (tr ++ [CallPreprocess (strip U s);
            CallGenerateAnswer (preprocess_question U (strip U s))])
  = (inr (answer_result b a r), tr') →
  handle_answer U key net (PDict d) tr
  = (inr (answer_body (PBool b) a (preprocess_question U (strip U s)) (PStr r),
          if b then 500%Z else 200%Z), tr').
Proof.
  intros Hs Hrun. run_handle_answer. rewrite question_is. cbv beta iota.
  destruct (strip U s) as [|c uq] eqn:Huq; [done|]. cbn [truthy negb].
  rewrite <- app_assoc. cbn [app]. rewrite Hrun. cbv beta iota.
  unfold dict_getitem.
  rewrite answer_result_error, answer_result_answer, answer_result_raw_response.
  cbv beta iota. by destruct b.
Qed.

(** An exception that leaves the answer service leaves the handler. *)
Lemma handle_answer_raised e tr' :
  strip U s ≠ [] →
  generate_answer key net (preprocess_question U (strip U s))
    (tr ++ [CallPreprocess (strip U s);
            CallGenerateAnswer (preprocess_question U (strip U s))])
  = (inl e, tr') →
  handle_answer U key net (PDict d) tr = (inl e, tr').
Proof.
  intros Hs Hrun. run_handle_answer. rewrite question_is. cbv beta iota.
  destruct (strip U s) as [|c uq] eqn:Huq; [done|]. cbn [truthy negb].
  rewrite <- app_assoc. cbn [app]. by rewrite Hrun.
Qed.

End HandlerPaths.

(** ** The claims about the handler *)

(** C4, as the program has it: for a JSON object body whose question is
    missing or a string [s], the handler answers 400 with [error] true,
    before any call into the preprocessor or the answer service and
    before any outbound call, when [s] is empty once stripped of white
    space (a missing question counts as [""]); for every other [s] it
    preprocesses the stripped question, calls the answer service, and
    answers 500 when the result has [error] true and 200 when it has
    [error] false, passing the flag on.  The answer service has a result
    whenever nothing outside [Exception] is raised on the provider's
    side. *)
Theorem handle_answer_status (U : ucd) (key : option str) (net : network)
    (d : gmap str pyval) (s : str) (tr : list event) :
  (d !! py "question" = None ∧ s = [])
  ∨ d !! py "question" = Some (PStr s) →
  (strip U s = [] →
     handle_answer U key net (PDict d) tr = (inr (no_question_body, 400%Z), tr)
     ∧ no_question_body !! py "error" = Some (PBool true))
  ∧ (strip U s ≠ [] →
     ∀ ans tr',
       generate_answer key net (preprocess_question U (strip U s))
         (tr ++ [CallPreprocess (strip U s);
                 CallGenerateAnswer (preprocess_question U (strip U s))])
       = (inr ans, tr') →
       ∃ b body,
         ans !! py "error" = Some (PBool b)
         ∧ handle_answer U key net (PDict d) tr
           = (inr (body, if b then 500%Z else 200%Z), tr')
         ∧ body !! py "error" = Some (PBool b)
         ∧ body !! py "processed"
           = Some (PStr (preprocess_question U (strip U s))))
  ∧ (strip U s ≠ [] → only_exceptions net →
     ∃ ans b body tr',
       generate_answer key net (preprocess_question U (strip U s))
         (tr ++ [CallPreprocess (strip U s);
                 CallGenerateAnswer (preprocess_question U (strip U s))])
       = (inr ans, tr')
       ∧ ans !! py "error" = Some (PBool b)
       ∧ handle_answer U key net (PDict d) tr
         = (inr (body, if b then 500%Z else 200%Z), tr')
       ∧ body !! py "error" = Some (PBool b)
       ∧ body !! py "processed"
         = Some (PStr (preprocess_question U (strip U s)))).
Proof.
  intros Hq.
  assert (Hdef : default (PStr (py "")) (d !! py "question") = PStr s)
    by (destruct Hq as [[-> ->]| ->]; reflexivity).
  split; [|split]; intros Hs.
  - split; [by apply (handle_answer_blank U key net d s)|].
    apply no_question_body_error.
  - intros ans tr' Hrun.
    destruct (generate_answer_outcome key net
                (preprocess_question U (strip U s))
                (tr ++ [CallPreprocess (strip U s);
                  CallGenerateAnswer (preprocess_question U (strip U s))]))
      as (o & tr'' & Hrun' & Ho).
    rewrite Hrun in Hrun'. injection Hrun' as <- _.
    destruct Ho as (b & a & r & -> & _).
    exists b. eexists. split; [apply answer_result_error|].
    split; [by apply (handle_answer_asked U key net d s tr Hdef b a r)|].
    split; [apply answer_body_error | apply answer_body_processed].
  - intros Hnet.
    destruct (generate_answer_returns key net
                (preprocess_question U (strip U s))
                (tr ++ [CallPreprocess (strip U s);
                  CallGenerateAnswer (preprocess_question U (strip U s))])
                Hnet)
      as (b & a & r & tr' & Hrun & _).
    exists (answer_result b a r), b. do 2 eexists.
    split; [exact Hrun|]. split; [apply answer_result_error|].
    split; [by apply (handle_answer_asked U key net d s tr Hdef b a r)|].
    split; [apply answer_body_error | apply answer_body_processed].
Qed.

Lemma handle_answer_status_witness :
  dict_literal [("question", PStr (py " Paris? "))] !! py "question"
  = Some (PStr (py " Paris? "))
  ∧ strip ucd_sample (py " Paris? ") ≠ []
  ∧ ∃ ans b body tr',
      generate_answer (Some (py "k")) provider_429 (py "paris")
        [CallPreprocess (py "Paris?"); CallGenerateAnswer (py "paris")]
      = (inr ans, tr')
      ∧ ans !! py "error" = Some (PBool b)
      ∧ handle_answer ucd_sample (Some (py "k")) provider_429
          (body_with_question (py " Paris? ")) []
        = (inr (body, if b then 500%Z else 200%Z), tr')
      ∧ body !! py "error" = Some (PBool b)
      ∧ body !! py "processed" = Some (PStr (py "paris")).
Proof.
  split; [reflexivity|]. split; [discriminate|].
  apply (handle_answer_status ucd_sample (Some (py "k")) provider_429
           (dict_literal [("question", PStr (py " Paris? "))])
           (py " Paris? ") []);
    [right; reflexivity | discriminate | intros r; exact I].
Defined.

(** C4 as the specification words it fails on the question [" "]: it is
    neither empty nor missing, and the handler answers 400, not 200 or
    500. *)
Lemma handle_answer_blank_question :
  ¬ handle_answer_as_specified ucd_sample (Some (py "k")) provider_paris
      (body_with_question (py " ")) [].
Proof.
  intros [_ H]. destruct H as (body & status & tr' & Hrun & Hst).
  - intros (d & Hd & Hq). injection Hd as <-.
    destruct Hq as [Hq|Hq]; vm_compute in Hq; discriminate Hq.
  - unfold body_with_question in Hrun.
    rewrite (handle_answer_blank _ _ _ _ (py " ")) in Hrun by reflexivity.
    injection Hrun as _ <- _. destruct Hst as [[? _]|[? _]]; discriminate.
Qed.

(** C10: when the question consists of white-space characters only, the
    handler answers 400 with [error] true and [processed] [""], and the
    trace gains no event: neither the preprocessor nor the answer service
    is called, and no outbound call is made. *)
Theorem handle_answer_whitespace (U : ucd) (key : option str) (net : network)
    (d : gmap str pyval) (s : str) (tr : list event) :
  d !! py "question" = Some (PStr s) →
  Forall (λ c, is_space U c = true) s →
  ∃ body,
    handle_answer U key net (PDict d) tr = (inr (body, 400%Z), tr)
    ∧ body !! py "error" = Some (PBool true)
    ∧ body !! py "processed" = Some (PStr (py "")).
Proof.
  intros Hq Hs. exists no_question_body.
  split; [|split; [apply no_question_body_error|apply no_question_body_processed]].
  apply (handle_answer_blank U key net d s); [by rewrite Hq|].
  by apply strip_all_space.
Qed.

Lemma handle_answer_whitespace_witness :
  ∃ body,
    handle_answer ucd_sample (Some (py "k")) provider_paris
      (body_with_question [0x20; 0x09; 0xA0]) []
    = (inr (body, 400%Z), [])
    ∧ body !! py "error" = Some (PBool true)
    ∧ body !! py "processed" = Some (PStr (py "")).
Proof.
  apply (handle_answer_whitespace ucd_sample (Some (py "k")) provider_paris
           (dict_literal [("question", PStr [0x20; 0x09; 0xA0])])
           [0x20; 0x09; 0xA0] []);
    [reflexivity | repeat constructor].
Defined.

(** * More about the preprocessor *)

Section MorePreprocess.
Context (U : ucd).
Implicit Types (s t cur x y w : str) (c : codepoint).

(** The characters of the tokens are the characters of the string that
    are no white space, in order. *)
Lemma split_from_concat cur x :
  concat (split_from U cur x)
  = reverse cur ++ filter (λ c, is_space U c = false) x.
Proof.
  revert cur. induction x as [|c x IH]; intros cur.
  - destruct cur; simpl; [done|]. by rewrite !app_nil_r.
  - cbn [split_from]. destruct (is_space U c) eqn:Hc.
    + rewrite filter_cons_False by congruence.
      destruct cur; [apply IH|]. cbn [concat]. by rewrite IH.
    + rewrite filter_cons_True by done.
      rewrite IH, reverse_cons, <- app_assoc. done.
Qed.

Lemma filter_lstrip (P : codepoint → Prop) `{!∀ c, Decision (P c)} x :
  (∀ c, P c → is_space U c = false) →
  filter P (lstrip U x) = filter P x.
Proof.
  intros HP. induction x as [|c x IH]; [done|]. simpl.
  destruct (is_space U c) eqn:Hc; [|done].
  rewrite IH, filter_cons_False; [done|]. intros HPc. apply HP in HPc. congruence.
Qed.

Lemma filter_strip (P : codepoint → Prop) `{!∀ c, Decision (P c)} x :
  (∀ c, P c → is_space U c = false) →
  filter P (strip U x) = filter P x.
Proof.
  intros HP. unfold strip, rstrip.
  rewrite filter_reverse, filter_lstrip, <- filter_reverse, reverse_involutive
    by done.
  by apply filter_lstrip.
Qed.

(** The tokens of [preprocess_question], laid end to end, are the word
    characters of the lower-cased question. *)
Lemma preprocess_tokens_concat s :
  concat (split U (re_sub_not_word_space U (strip U (lower U s))))
  = filter (λ c, is_word U c = true ∧ is_space U c = false) (lower U s).
Proof.
  unfold split. rewrite split_from_concat. simpl.
  unfold re_sub_not_word_space. rewrite list_filter_filter.
  rewrite <- (filter_strip
    (λ c, is_word U c = true ∧ is_space U c = false) (lower U s))
    by (by intros c [_ ?]).
  apply list_filter_iff. intros c.
  destruct (is_word U c), (is_space U c); simpl; intuition congruence.
Qed.

Lemma filter_join_no_space sp tokens :
  is_space U sp = true →
  filter (λ c, is_space U c = false) (join [sp] tokens)
  = filter (λ c, is_space U c = false) (concat tokens).
Proof.
  intros Hsp. induction tokens as [|t rest IH]; [done|].
  cbn [join concat]. destruct rest as [|t' rest].
  - by rewrite app_nil_r.
  - rewrite !filter_app, IH. f_equal.
    rewrite filter_cons_False by congruence. done.
Qed.

Lemma concat_nil_tokens (tokens : list str) :
  Forall (λ t, t ≠ []) tokens → concat tokens = [] → tokens = [].
Proof.
  intros H. destruct H as [|t rest Hne _]; [done|].
  cbn [concat]. intros E. apply app_eq_nil in E as [? _]. done.
Qed.

Lemma filter_nil_Forall (P : codepoint → Prop) `{!∀ c, Decision (P c)} x :
  filter P x = [] ↔ Forall (λ c, ¬ P c) x.
Proof.
  induction x as [|c x IH]; [by split|].
  rewrite filter_cons. case_decide as HP.
  - split; [done|]. intros HF. apply Forall_cons in HF as [? _]. done.
  - rewrite IH. split; [by constructor|].
    intros HF. by apply Forall_cons in HF as [_ ?].
Qed.

(** *** White space around a string *)

Lemma lstrip_leading w x :
  Forall (λ c, is_space U c = true) w → lstrip U (w ++ x) = lstrip U x.
Proof. induction 1 as [|c w Hc _ IH]; simpl; [done | by rewrite Hc]. Qed.

Lemma lstrip_decompose x :
  ∃ w, Forall (λ c, is_space U c = true) w ∧ x = w ++ lstrip U x.
Proof.
  induction x as [|c x (w & Hw & IH)]; [by exists []|]. simpl.
  destruct (is_space U c) eqn:Hc; [|by exists []].
  exists (c :: w). split; [by constructor|]. simpl. by rewrite <- IH.
Qed.

Lemma rstrip_decompose x :
  ∃ w, Forall (λ c, is_space U c = true) w ∧ x = rstrip U x ++ w.
Proof.
  destruct (lstrip_decompose (reverse x)) as (w & Hw & E).
  exists (reverse w). split; [by apply Forall_reverse|]. unfold rstrip.
  by rewrite <- reverse_app, <- E, reverse_involutive.
Qed.

Lemma re_sub_space w :
  Forall (λ c, is_space U c = true) w → re_sub_not_word_space U w = w.
Proof.
  intros Hw. apply re_sub_id. eapply Forall_impl; [exact Hw|].
  intros c ->. apply orb_true_r.
Qed.

Lemma re_sub_app x y :
  re_sub_not_word_space U (x ++ y)
  = re_sub_not_word_space U x ++ re_sub_not_word_space U y.
Proof. apply filter_app. Qed.

Lemma split_from_leading_space w x :
  Forall (λ c, is_space U c = true) w →
  split_from U [] (w ++ x) = split_from U [] x.
Proof. induction 1 as [|c w Hc _ IH]; simpl; [done | by rewrite Hc]. Qed.

Lemma split_from_space_only w :
  Forall (λ c, is_space U c = true) w → split_from U [] w = [].
Proof. induction 1 as [|c w Hc _ IH]; simpl; [done | by rewrite Hc]. Qed.

Lemma split_from_trailing_space cur x w :
  Forall (λ c, is_space U c = true) w →
  split_from U cur (x ++ w) = split_from U cur x.
Proof.
  intros Hw. revert cur. induction x as [|c x IH]; intros cur.
  - simpl. destruct Hw as [|d w Hd Hw]; [done|]. cbn [split_from].
    rewrite Hd, split_from_space_only by done. by destruct cur.
  - simpl. destruct (is_space U c); [destruct cur|]; by rewrite IH.
Qed.

(** [split] does not see what [strip] removes. *)
Lemma split_re_sub_strip x :
  split U (re_sub_not_word_space U (strip U x))
  = split U (re_sub_not_word_space U x).
Proof.
  unfold strip, split.
  destruct (lstrip_decompose x) as (w1 & Hw1 & E1).
  destruct (rstrip_decompose (lstrip U x)) as (w2 & Hw2 & E2).
  rewrite E1 at 2. rewrite E2 at 2.
  rewrite !re_sub_app, (re_sub_space w1), (re_sub_space w2) by done.
  by rewrite split_from_leading_space, split_from_trailing_space.
Qed.

(** *** Lower-casing next to white space *)

Lemma handle_capital_sigma_ahead before after :
  handle_capital_sigma U before after
  = if cased_ahead U before && negb (cased_ahead U after)
    then FINAL_SIGMA else SMALL_SIGMA.
Proof.
  unfold handle_capital_sigma, cased_ahead.
  destruct (skip_case_ignorable U before) as [c|]; [destruct (is_cased U c)|];
    [destruct (skip_case_ignorable U after) as [d|]; [destruct (is_cased U d)|]| |];
    reflexivity.
Qed.

Lemma cased_ahead_space x w :
  space_caseless U → Forall (λ c, is_space U c = true) w →
  cased_ahead U (x ++ w) = cased_ahead U x.
Proof.
  intros HU Hw. unfold cased_ahead. induction x as [|c x IH]; simpl.
  - induction Hw as [|c w Hc _ IH]; simpl; [done|].
    destruct (is_case_ignorable U c); [done|]. by apply HU.
  - by destruct (is_case_ignorable U c).
Qed.

Lemma do_lower_space before w :
  space_caseless U → Forall (λ c, is_space U c = true) w →
  do_lower U before w = w.
Proof.
  intros HU Hw. apply do_lower_fixed. eapply Forall_impl; [exact Hw|].
  intros c Hc. destruct (HU c Hc) as (? & ? & _). by split.
Qed.

Lemma do_lower_leading_space before w x :
  space_caseless U → Forall (λ c, is_space U c = true) w →
  do_lower U before (w ++ x) = w ++ do_lower U (reverse w ++ before) x.
Proof.
  intros HU Hw. revert before.
  induction Hw as [|c w Hc _ IH]; intros before; simpl; [done|].
  destruct (HU c Hc) as (Hne & Hfix & _). unfold lower_ucs4.
  apply N.eqb_neq in Hne. rewrite Hne, Hfix, IH, reverse_cons, <- app_assoc.
  done.
Qed.

Lemma do_lower_padded before wb x wa :
  space_caseless U →
  Forall (λ c, is_space U c = true) wb →
  Forall (λ c, is_space U c = true) wa →
  do_lower U (before ++ wb) (x ++ wa) = do_lower U before x ++ wa.
Proof.
  intros HU Hwb Hwa. revert before.
  induction x as [|c x IH]; intros before; simpl.
  - by apply do_lower_space.
  - rewrite <- app_assoc. f_equal; [|apply (IH (c :: before))].
    unfold lower_ucs4. destruct (c =? CAPITAL_SIGMA); [|done].
    by rewrite !handle_capital_sigma_ahead, !cased_ahead_space.
Qed.

Lemma lower_padded w1 x w2 :
  space_caseless U →
  Forall (λ c, is_space U c = true) w1 →
  Forall (λ c, is_space U c = true) w2 →
  lower U (w1 ++ x ++ w2) = w1 ++ lower U x ++ w2.
Proof.
  intros HU Hw1 Hw2. unfold lower.
  rewrite do_lower_leading_space by done. f_equal.
  rewrite app_nil_r.
  apply (do_lower_padded [] (reverse w1)); [done| |done].
  by apply Forall_reverse.
Qed.

(** White space around a question does not reach the tokens. *)
Lemma preprocess_padded w1 x w2 :
  space_caseless U →
  Forall (λ c, is_space U c = true) w1 →
  Forall (λ c, is_space U c = true) w2 →
  preprocess_question U (w1 ++ x ++ w2) = preprocess_question U x.
Proof.
  intros HU Hw1 Hw2. unfold preprocess_question. f_equal.
  rewrite !split_re_sub_strip, lower_padded by done.
  rewrite !re_sub_app, (re_sub_space w1), (re_sub_space w2) by done.
  unfold split.
  by rewrite split_from_leading_space, split_from_trailing_space.
Qed.

End MorePreprocess.

Lemma preprocess_question_of_normalized (U : ucd) (s : str) :
  ucd_wf U → normalized U s → preprocess_question U s = s.
Proof.
  intros HU (tokens & -> & Htoks).
  pose proof (tokens_single_spaced U _ tokens Htoks) as (Hhead & Hlast & _).
  pose proof (tokens_no_space U _ tokens Htoks) as Hns.
  unfold preprocess_question. change (py " ") with [SPACE].
  unfold lower. rewrite do_lower_fixed.
  - rewrite strip_id, re_sub_id, split_join; [done|apply HU|done| |done|done].
    apply join_Forall.
    + rewrite (wf_space U HU). apply orb_true_r.
    + eapply Forall_impl; [exact Htoks|]. intros t [[_ Ht] _].
      eapply Forall_impl; [exact Ht|]. intros c [-> _]. done.
  - apply join_Forall; [apply HU|].
    eapply Forall_impl; [exact Htoks|]. by intros t [_ ?].
Qed.

Lemma in_range_false (lo hi c : codepoint) :
  c < lo ∨ hi < c → in_range lo hi c = false.
Proof.
  intros H. unfold in_range. apply andb_false_iff.
  destruct H; [left; by apply N.leb_gt | right; by apply N.leb_gt].
Qed.

Lemma sample_space_ranges (c : codepoint) :
  sample_is_space c = true →
  0x09 ≤ c ≤ 0x0D ∨ 0x1C ≤ c ≤ 0x20 ∨ c = 0x85 ∨ c = 0xA0 ∨ c = 0x1680
  ∨ 0x2000 ≤ c ≤ 0x200A ∨ 0x2028 ≤ c ≤ 0x2029 ∨ c = 0x202F ∨ c = 0x205F
  ∨ c = 0x3000.
Proof.
  unfold sample_is_space, in_range.
  rewrite !orb_true_iff, !andb_true_iff, !N.leb_le, !N.eqb_eq. tauto.
Qed.

Lemma ucd_sample_space_caseless : space_caseless ucd_sample.
Proof.
  intros c Hc. apply sample_space_ranges in Hc.
  assert (Hfix : lower_fixed ucd_sample c)
    by (apply sample_lower_fixed; unfold CAPITAL_SIGMA; lia).
  destruct Hfix as [Hne Hfix]. split; [done|]. split; [done|].
  simpl. unfold sample_is_lowercase, sample_is_uppercase.
  rewrite !orb_false_iff.
  repeat split; first [apply in_range_false | apply N.eqb_neq]; lia.
Qed.

(** X1: the strings [preprocess_question] leaves unchanged are exactly the
    normalized ones: tokens of word characters in lower-cased form,
    joined by single spaces. *)
Theorem preprocess_question_fixed_point_iff (U : ucd) (s : str) :
  ucd_wf U →
  preprocess_question U s = s ↔ normalized U s.
Proof.
  intros HU. split.
  - intros <-. apply (preprocess_question_shape U s HU).
  - by apply preprocess_question_of_normalized.
Qed.

Lemma preprocess_question_fixed_point_iff_witness :
  ucd_wf ucd_sample
  ∧ (preprocess_question ucd_sample (py "hello world") = py "hello world"
     ↔ normalized ucd_sample (py "hello world")).
Proof.
  split; [exact ucd_sample_wf|].
  exact (preprocess_question_fixed_point_iff ucd_sample (py "hello world")
           ucd_sample_wf).
Defined.

(** X2: apart from the spaces between tokens, the result is the
    lower-cased question with everything but its word characters taken
    out, in the same order. *)
Theorem preprocess_question_word_characters (U : ucd) (s : str) :
  is_space U SPACE = true →
  filter (λ c, is_space U c = false) (preprocess_question U s)
  = filter (λ c, is_word U c = true ∧ is_space U c = false) (lower U s).
Proof.
  intros Hsp. unfold preprocess_question. change (py " ") with [SPACE].
  rewrite filter_join_no_space, preprocess_tokens_concat by done.
  rewrite list_filter_filter. apply list_filter_iff. intros c. tauto.
Qed.

Lemma preprocess_question_word_characters_witness :
  is_space ucd_sample SPACE = true
  ∧ filter (λ c, is_space ucd_sample c = false)
      (preprocess_question ucd_sample (py "  Hello, World!!  "))
    = filter (λ c, is_word ucd_sample c = true ∧ is_space ucd_sample c = false)
        (lower ucd_sample (py "  Hello, World!!  ")).
Proof.
  split; [reflexivity|].
  apply (preprocess_question_word_characters ucd_sample). reflexivity.
Defined.

Lemma preprocess_empty_iff (U : ucd) (s : str) :
  preprocess_question U s = []
  ↔ Forall (λ c, ¬ (is_word U c = true ∧ is_space U c = false)) (lower U s).
Proof.
  rewrite <- filter_nil_Forall, <- preprocess_tokens_concat.
  unfold preprocess_question. change (py " ") with [SPACE].
  assert (Hne : Forall (λ t, t ≠ [])
            (split U (re_sub_not_word_space U (strip U (lower U s))))).
  { pose proof (split_from_Forall U (λ _, True) []
                  (re_sub_not_word_space U (strip U (lower U s)))) as H.
    eapply Forall_impl; [apply H; [constructor | by apply Forall_true]|].
    by intros t [? _]. }
  split.
  - intros E. by rewrite (join_nil SPACE _ Hne E).
  - intros E. by rewrite (concat_nil_tokens _ Hne E).
Qed.

(** X3: the result is empty exactly when the lower-cased question has no
    character that is a word character and no white space. *)
Theorem preprocess_question_empty_iff (U : ucd) (s : str) :
  preprocess_question U s = []
  ↔ Forall (λ c, ¬ (is_word U c = true ∧ is_space U c = false)) (lower U s).
Proof. apply preprocess_empty_iff. Qed.

(** X4: white space before and after a question does not change the
    result, in any table where white space has no case. *)
Theorem preprocess_question_padding (U : ucd) (w1 s w2 : str) :
  space_caseless U →
  Forall (λ c, is_space U c = true) w1 →
  Forall (λ c, is_space U c = true) w2 →
  preprocess_question U (w1 ++ s ++ w2) = preprocess_question U s.
Proof. apply preprocess_padded. Qed.

Lemma preprocess_question_padding_witness :
  space_caseless ucd_sample
  ∧ preprocess_question ucd_sample
      ([0x09; 0x20] ++ py "What's the Capital of France?" ++ [0xA0; 0x0A])
    = preprocess_question ucd_sample (py "What's the Capital of France?").
Proof.
  split; [exact ucd_sample_space_caseless|].
  apply (preprocess_question_padding ucd_sample);
    [exact ucd_sample_space_caseless | repeat constructor..].
Defined.

(** X5: stripping a question before preprocessing it, as [handle_answer]
    does, gives the same result as preprocessing it as it came. *)
Theorem preprocess_question_after_strip (U : ucd) (s : str) :
  space_caseless U →
  preprocess_question U (strip U s) = preprocess_question U s.
Proof.
  intros HU.
  destruct (lstrip_decompose U s) as (w1 & Hw1 & E1).
  destruct (rstrip_decompose U (lstrip U s)) as (w2 & Hw2 & E2).
  transitivity (preprocess_question U (w1 ++ strip U s ++ w2)).
  - symmetry. by apply preprocess_padded.
  - f_equal. unfold strip. by rewrite <- E2, <- E1.
Qed.

Lemma preprocess_question_after_strip_witness :
  space_caseless ucd_sample
  ∧ preprocess_question ucd_sample (strip ucd_sample (py "  Hello, World!!  "))
    = preprocess_question ucd_sample (py "  Hello, World!!  ").
Proof.
  split; [exact ucd_sample_space_caseless|].
  apply (preprocess_question_after_strip ucd_sample),
    ucd_sample_space_caseless.
Defined.

(** ** Preprocessing word by word *)

Section WordByWord.
Context (U : ucd).
Implicit Types (s t cur x y w : str) (c : codepoint).

Lemma cased_ahead_stops x c y :
  is_case_ignorable U c = false → is_cased U c = false →
  cased_ahead U (x ++ c :: y) = cased_ahead U x.
Proof.
  intros Hci Hca. unfold cased_ahead. induction x as [|e x IH]; simpl.
  - by rewrite Hci.
  - by destruct (is_case_ignorable U e).
Qed.

Lemma do_lower_behind_space before c rest y :
  is_case_ignorable U c = false → is_cased U c = false →
  do_lower U (before ++ c :: rest) y = do_lower U before y.
Proof.
  intros Hci Hca. revert before.
  induction y as [|e y IH]; intros before; simpl; [done|].
  f_equal; [|apply (IH (e :: before))].
  unfold lower_ucs4. destruct (e =? CAPITAL_SIGMA); [|done].
  by rewrite !handle_capital_sigma_ahead, cased_ahead_stops.
Qed.

Lemma do_lower_across_space before x c y :
  space_plain U → is_space U c = true →
  do_lower U before (x ++ c :: y) = do_lower U before x ++ c :: do_lower U [] y.
Proof.
  intros [HU Hci] Hc. destruct (HU c Hc) as (Hne & Hfix & Hca).
  specialize (Hci c Hc). revert before.
  induction x as [|e x IH]; intros before; simpl.
  - unfold lower_ucs4. apply N.eqb_neq in Hne. rewrite Hne, Hfix. simpl.
    f_equal. by apply (do_lower_behind_space [] c before).
  - rewrite <- app_assoc. f_equal; [|apply IH].
    unfold lower_ucs4. destruct (e =? CAPITAL_SIGMA); [|done].
    by rewrite !handle_capital_sigma_ahead, cased_ahead_stops.
Qed.

Lemma split_from_across_space cur x c y :
  is_space U c = true →
  split_from U cur (x ++ c :: y) = split_from U cur x ++ split_from U [] y.
Proof.
  intros Hc. revert cur. induction x as [|e x IH]; intros cur; simpl.
  - rewrite Hc. by destruct cur.
  - destruct (is_space U e); [destruct cur|]; by rewrite IH.
Qed.

Lemma join_cons sp t (rest : list str) :
  rest ≠ [] → join [sp] (t :: rest) = t ++ sp :: join [sp] rest.
Proof. by destruct rest. Qed.

Lemma join_app (t1 t2 : list str) :
  Forall (λ t, t ≠ []) t1 → Forall (λ t, t ≠ []) t2 →
  join [SPACE] (t1 ++ t2)
  = join_results (join [SPACE] t1) (join [SPACE] t2).
Proof.
  intros H1 H2. induction H1 as [|t rest Hne Hrest IH]; [done|].
  destruct t2 as [|u t2].
  { rewrite app_nil_r. change (join [SPACE] []) with (@nil N).
    by destruct (join [SPACE] (t :: rest)). }
  destruct (join [SPACE] (u :: t2)) as [|b r] eqn:Er.
  { by apply join_nil in Er. }
  change ((t :: rest) ++ u :: t2) with (t :: (rest ++ u :: t2)).
  rewrite join_cons, IH by (by destruct rest).
  destruct t as [|e t]; [done|].
  destruct rest as [|t' rest]; [done|].
  destruct (join [SPACE] (t' :: rest)) as [|a l] eqn:El.
  { by apply join_nil in El. }
  rewrite join_cons, El by done. unfold join_results. simpl.
  by rewrite <- !app_assoc.
Qed.

Lemma do_lower_after_spaces w y :
  space_plain U → Forall (λ c, is_space U c = true) w →
  do_lower U w y = do_lower U [] y.
Proof.
  intros [HU Hci] Hw. destruct Hw as [|c w Hc _]; [done|].
  apply (do_lower_behind_space [] c w); [by apply Hci | by apply HU].
Qed.

Lemma lower_across_space a c w b :
  space_plain U → is_space U c = true →
  Forall (λ c, is_space U c = true) w →
  lower U (a ++ c :: w ++ b) = lower U a ++ c :: w ++ lower U b.
Proof.
  intros HU Hc Hw. unfold lower.
  rewrite do_lower_across_space by done.
  rewrite (do_lower_leading_space U [] w b), app_nil_r by (apply HU || done).
  rewrite (do_lower_after_spaces (reverse w) b);
    [done | done | by apply Forall_reverse].
Qed.

(** The tokens of two questions put side by side with white space
    between them are the tokens of the one followed by the tokens of the
    other. *)
Lemma preprocess_tokens_app a c w b :
  space_plain U → is_space U c = true →
  Forall (λ c, is_space U c = true) w →
  split U (re_sub_not_word_space U (lower U (a ++ c :: w ++ b)))
  = split U (re_sub_not_word_space U (lower U a))
    ++ split U (re_sub_not_word_space U (lower U b)).
Proof.
  intros HU Hc Hw. rewrite lower_across_space by done. unfold split.
  change (c :: w ++ lower U b) with ([c] ++ w ++ lower U b).
  rewrite re_sub_app, (re_sub_app U [c]), (re_sub_app U w).
  rewrite (re_sub_space U [c]), (re_sub_space U w) by (done || by constructor).
  change ([c] ++ w ++ re_sub_not_word_space U (lower U b))
    with (c :: w ++ re_sub_not_word_space U (lower U b)).
  by rewrite split_from_across_space, split_from_leading_space.
Qed.

Lemma preprocess_app a c w b :
  space_plain U → is_space U c = true →
  Forall (λ c, is_space U c = true) w →
  preprocess_question U (a ++ c :: w ++ b)
  = join_results (preprocess_question U a) (preprocess_question U b).
Proof.
  intros HU Hc Hw. unfold preprocess_question.
  change (py " ") with [SPACE].
  rewrite !split_re_sub_strip, preprocess_tokens_app by done.
  apply join_app.
  - pose proof (split_from_Forall U (λ _, True) []
                  (re_sub_not_word_space U (lower U a))) as H.
    eapply Forall_impl; [apply H; [constructor | by apply Forall_true]|].
    by intros t [? _].
  - pose proof (split_from_Forall U (λ _, True) []
                  (re_sub_not_word_space U (lower U b))) as H.
    eapply Forall_impl; [apply H; [constructor | by apply Forall_true]|].
    by intros t [? _].
Qed.

End WordByWord.

Lemma ucd_sample_space_plain : space_plain ucd_sample.
Proof.
  split; [exact ucd_sample_space_caseless|].
  intros c Hc. apply sample_space_ranges in Hc.
  simpl. unfold sample_is_case_ignorable. rewrite !orb_false_iff.
  repeat split; first [apply in_range_false | apply N.eqb_neq]; lia.
Qed.

(** X21: preprocessing works word by word: for two strings with white
    space between them, the result is the result for the first and the
    result for the second, with a single space between them when neither
    is empty. *)
Theorem preprocess_question_app (U : ucd) (a w b : str) :
  space_plain U →
  w ≠ [] → Forall (λ c, is_space U c = true) w →
  preprocess_question U (a ++ w ++ b)
  = join_results (preprocess_question U a) (preprocess_question U b).
Proof.
  intros HU Hne Hw. destruct Hw as [|c w Hc Hw]; [done|].
  by apply preprocess_app.
Qed.

Lemma preprocess_question_app_witness :
  space_plain ucd_sample
  ∧ preprocess_question ucd_sample
      (py "What's the Capital" ++ [0x20; 0x0A] ++ py "of France?")
    = join_results (preprocess_question ucd_sample (py "What's the Capital"))
        (preprocess_question ucd_sample (py "of France?")).
Proof.
  split; [exact ucd_sample_space_plain|].
  apply (preprocess_question_app ucd_sample);
    [exact ucd_sample_space_plain | discriminate | repeat constructor].
Defined.

(** X23: lower-casing a question before preprocessing it does not change
    the result. *)
Theorem preprocess_question_of_lower (U : ucd) (s : str) :
  ucd_wf U →
  preprocess_question U (lower U s) = preprocess_question U s.
Proof.
  intros [_ _ Hf Hs Hl]. unfold preprocess_question. do 4 f_equal.
  unfold lower at 1. apply do_lower_fixed.
  apply (do_lower_Forall U _ (λ _, True));
    [by apply Forall_true | by intros _ | intros c d _; apply Hl].
Qed.

Lemma preprocess_question_of_lower_witness :
  ucd_wf ucd_sample
  ∧ preprocess_question ucd_sample (lower ucd_sample (py "  Hello, World!!  "))
    = preprocess_question ucd_sample (py "  Hello, World!!  ").
Proof.
  split; [exact ucd_sample_wf|].
  apply (preprocess_question_of_lower ucd_sample), ucd_sample_wf.
Defined.

(** * More about the answer service *)

Lemma returned_inj {A} (a a' : A) (tr tr' : list event) :
  (inr a : outcome A, tr) = (inr a', tr') → a = a' ∧ tr = tr'.
Proof. by intros [= -> ->]. Qed.

Lemma generate_answer_trace (key : option str) (net : network)
    (q : str) (tr : list event) :
  (generate_answer key net q tr).2
  = if key_missing key then tr else tr ++ [HttpPost (gemini_request key q)].
Proof.
  destruct (key_missing key) eqn:Hkey.
  { by rewrite generate_answer_no_key. }
  destruct (net (gemini_request key q)) as [e|resp] eqn:Hnet.
  { by rewrite (generate_answer_post_outcome _ _ _ _ e). }
  destruct (decide (status_code resp = 200%Z)) as [Hst|Hst]; cycle 1.
  { by rewrite (generate_answer_bad_status _ _ _ _ resp). }
  destruct (json resp) as [e|result] eqn:Hjson.
  { by rewrite (generate_answer_json_outcome _ _ _ _ resp e). }
  destruct (extract_answer_text result) as [e|a] eqn:Hex.
  { by rewrite (generate_answer_extract_raises _ _ _ _ resp result e). }
  by rewrite (generate_answer_success _ _ _ _ resp result a).
Qed.

(** X6: [generate_answer] makes exactly one outbound call when a key is
    configured, whatever the provider answers and whether or not the call
    fails (nothing is retried), and none when the key is missing. *)
Theorem generate_answer_single_call (key : option str) (net : network)
    (q : str) (tr : list event) :
  (generate_answer key net q tr).2
  = if key_missing key then tr else tr ++ [HttpPost (gemini_request key q)].
Proof. apply generate_answer_trace. Qed.

(** X7: the result has [error] false exactly when a key is configured,
    the provider answered with status 200, the body parsed as JSON and
    the extraction returned a value. *)
Theorem generate_answer_error_false_iff (key : option str) (net : network)
    (q : str) (tr : list event) :
  (∃ d tr', generate_answer key net q tr = (inr d, tr')
            ∧ d !! py "error" = Some (PBool false))
  ↔ key_missing key = false
    ∧ ∃ resp result a,
        net (gemini_request key q) = inr resp
        ∧ status_code resp = 200%Z
        ∧ json resp = inr result
        ∧ extract_answer_text result = inr a.
Proof.
  split.
  - intros (d & tr' & Hrun & Herr).
    destruct (generate_answer_outcome key net q tr)
      as (o & tr'' & Hrun' & Ho).
    rewrite Hrun in Hrun'. injection Hrun' as <- _.
    destruct Ho as (b & a & r & -> & _ & Hfalse).
    rewrite answer_result_error in Herr. injection Herr as ->.
    destruct (Hfalse eq_refl) as (resp & result & Hnet & Hst & Hjson & Hex).
    split; [|by exists resp, result, a].
    destruct (key_missing key) eqn:Hkey; [|done].
    rewrite generate_answer_no_key in Hrun by done.
    apply returned_inj in Hrun as [Hd _].
    apply (f_equal (λ m : gmap str pyval, m !! py "error")) in Hd.
    rewrite !answer_result_error in Hd. discriminate Hd.
  - intros (Hkey & resp & result & a & Hnet & Hst & Hjson & Hex).
    do 2 eexists.
    split; [by apply (generate_answer_success _ _ _ _ resp result a)|].
    apply answer_result_error.
Qed.

(** X8: when the outbound call raises an exception that derives from
    [Exception] but is not a [RequestException], the result has [error]
    true, the unexpected-error message followed by [str(e)] as [answer],
    and [str(e)] as [raw_response]. *)
Theorem generate_answer_unexpected_error (key : option str) (net : network)
    (q : str) (tr : list event) (e : exn) :
  key_missing key = false →
  net (gemini_request key q) = inl e →
  is_exception e = true →
  is_request_exception e = false →
  ∃ d,
    generate_answer key net q tr
    = (inr d, tr ++ [HttpPost (gemini_request key q)])
    ∧ d !! py "error" = Some (PBool true)
    ∧ d !! py "answer" = Some (PStr
        (py "An unexpected server error occurred: " ++ exn_str e))
    ∧ d !! py "raw_response" = Some (PStr (exn_str e)).
Proof.
  intros Hkey Hnet Hexc He. eexists.
  split; [by apply generate_answer_post_raises|].
  unfold except_result. rewrite He.
  by rewrite answer_result_error, answer_result_answer,
    answer_result_raw_response.
Qed.

Lemma generate_answer_unexpected_error_witness :
  ∃ d,
    generate_answer (Some (py "k")) provider_broken (py "q") []
    = (inr d, [HttpPost (gemini_request (Some (py "k")) (py "q"))])
    ∧ d !! py "error" = Some (PBool true)
    ∧ d !! py "answer" = Some (PStr
        (py "An unexpected server error occurred: unsupported operand"))
    ∧ d !! py "raw_response" = Some (PStr (py "unsupported operand")).
Proof.
  apply (generate_answer_unexpected_error (Some (py "k")) provider_broken
           (py "q") [] (Exn OtherException (py "unsupported operand")));
    reflexivity.
Defined.

(** X9: when the provider answers 200 and [response.json()] raises [e]
    (the body is no JSON; [e], a decode error, derives from [Exception]),
    the result has [error] true and [str(e)] as [raw_response], not the
    body text; the [answer] is the connection-error message when [e] is a
    [RequestException], as the decode error of [requests] is, and the
    unexpected-error message otherwise. *)
Theorem generate_answer_invalid_json (key : option str) (net : network)
    (q : str) (tr : list event) (resp : response) (e : exn) :
  key_missing key = false →
  net (gemini_request key q) = inr resp →
  status_code resp = 200%Z →
  json resp = inl e →
  is_exception e = true →
  ∃ d,
    generate_answer key net q tr
    = (inr d, tr ++ [HttpPost (gemini_request key q)])
    ∧ d !! py "error" = Some (PBool true)
    ∧ d !! py "answer" = Some (PStr
        ((if is_request_exception e
          then py "Connection Error: Could not reach the API endpoint. "
          else py "An unexpected server error occurred: ") ++ exn_str e))
    ∧ d !! py "raw_response" = Some (PStr (exn_str e)).
Proof.
  intros Hkey Hnet Hst Hjson Hexc. eexists.
  split; [by apply (generate_answer_json_raises _ _ _ _ resp)|].
  unfold except_result. destruct (is_request_exception e);
    by rewrite answer_result_error, answer_result_answer,
      answer_result_raw_response.
Qed.

Lemma generate_answer_invalid_json_witness :
  ∃ d,
    generate_answer (Some (py "k")) provider_not_json (py "q") []
    = (inr d, [HttpPost (gemini_request (Some (py "k")) (py "q"))])
    ∧ d !! py "error" = Some (PBool true)
    ∧ d !! py "answer" = Some (PStr
        (py "Connection Error: Could not reach the API endpoint. "
         ++ py "Expecting value: line 1 column 1 (char 0)"))
    ∧ d !! py "raw_response" = Some (PStr
        (py "Expecting value: line 1 column 1 (char 0)")).
Proof.
  apply (generate_answer_invalid_json (Some (py "k")) provider_not_json
           (py "q") [] response_not_json
           (Exn RequestException (py "Expecting value: line 1 column 1 (char 0)")));
    reflexivity.
Defined.

(** X10: when the provider answers 200 with a JSON object whose first
    candidate is an object with a content object whose first part is an
    object with a [text] entry, the result has [error] false, that
    entry's value as [answer] and the raw body text as [raw_response];
    further candidates and parts are not looked at. *)
Theorem generate_answer_text_found (key : option str) (net : network)
    (q : str) (tr : list event) (resp : response)
    (d c ct p : gmap str pyval) (t : pyval) (cs ps : list pyval) :
  key_missing key = false →
  net (gemini_request key q) = inr resp →
  status_code resp = 200%Z →
  json resp = inr (PDict d) →
  d !! py "candidates" = Some (PList (PDict c :: cs)) →
  c !! py "content" = Some (PDict ct) →
  ct !! py "parts" = Some (PList (PDict p :: ps)) →
  p !! py "text" = Some t →
  ∃ r,
    generate_answer key net q tr
    = (inr r, tr ++ [HttpPost (gemini_request key q)])
    ∧ r !! py "error" = Some (PBool false)
    ∧ r !! py "answer" = Some t
    ∧ r !! py "raw_response" = Some (PStr (text resp)).
Proof.
  intros Hkey Hnet Hst Hjson Hd Hc Hct Hp. eexists. split.
  - apply (generate_answer_success _ _ _ _ resp (PDict d) t); try done.
    by apply (extract_answer_text_found d c ct p t cs ps).
  - by rewrite answer_result_error, answer_result_answer,
      answer_result_raw_response.
Qed.

Lemma generate_answer_text_found_witness :
  ∃ r,
    generate_answer (Some (py "k")) provider_paris (py "q") []
    = (inr r, [HttpPost (gemini_request (Some (py "k")) (py "q"))])
    ∧ r !! py "error" = Some (PBool false)
    ∧ r !! py "answer" = Some (PStr (py "Paris"))
    ∧ r !! py "raw_response" = Some (PStr (text response_paris)).
Proof.
  apply (generate_answer_text_found (Some (py "k")) provider_paris (py "q") []
           response_paris
           (dict_literal [("candidates", PList [PDict (dict_literal
              [("content", PDict (dict_literal [("parts", PList [PDict (dict_literal
                 [("text", PStr (py "Paris"))])])]))])])])
           (dict_literal
              [("content", PDict (dict_literal [("parts", PList [PDict (dict_literal
                 [("text", PStr (py "Paris"))])])]))])
           (dict_literal [("parts", PList [PDict (dict_literal
                 [("text", PStr (py "Paris"))])])])
           (dict_literal [("text", PStr (py "Paris"))])
           (PStr (py "Paris")) [] []);
    reflexivity.
Defined.

(** X11: when the provider answers 200 with a JSON object in which one of
    the keys [candidates], [content], [parts], [text] is missing on the
    way to the first part (the levels above it being as expected), the
    result has [error] false, the placeholder as [answer] and the raw
    body text as [raw_response]. *)
Theorem generate_answer_placeholder (key : option str) (net : network)
    (q : str) (tr : list event) (resp : response) (d : gmap str pyval) :
  key_missing key = false →
  net (gemini_request key q) = inr resp →
  status_code resp = 200%Z →
  json resp = inr (PDict d) →
  d !! py "candidates" = None
  ∨ (∃ c cs, d !! py "candidates" = Some (PList (PDict c :: cs))
      ∧ (c !! py "content" = None
         ∨ ∃ ct, c !! py "content" = Some (PDict ct)
            ∧ (ct !! py "parts" = None
               ∨ ∃ p ps, ct !! py "parts" = Some (PList (PDict p :: ps))
                  ∧ p !! py "text" = None))) →
  ∃ r,
    generate_answer key net q tr
    = (inr r, tr ++ [HttpPost (gemini_request key q)])
    ∧ r !! py "error" = Some (PBool false)
    ∧ r !! py "answer" = Some (PStr (py "No answer generated."))
    ∧ r !! py "raw_response" = Some (PStr (text resp)).
Proof.
  intros Hkey Hnet Hst Hjson Hmiss. eexists. split.
  - apply (generate_answer_success _ _ _ _ resp (PDict d)
             (PStr (py "No answer generated."))); try done.
    destruct Hmiss as [Hd|(c & cs & Hd & [Hc|(ct & Hc & [Hct|(p & ps & Hct & Hp)])])].
    + by apply extract_answer_text_no_candidates.
    + by apply (extract_answer_text_no_content d c cs).
    + by apply (extract_answer_text_no_parts d c cs ct).
    + by apply (extract_answer_text_no_text d c cs ct p ps).
  - by rewrite answer_result_error, answer_result_answer,
      answer_result_raw_response.
Qed.

Lemma generate_answer_placeholder_witness :
  ∃ r,
    generate_answer (Some (py "k")) provider_empty_object (py "q") []
    = (inr r, [HttpPost (gemini_request (Some (py "k")) (py "q"))])
    ∧ r !! py "error" = Some (PBool false)
    ∧ r !! py "answer" = Some (PStr (py "No answer generated."))
    ∧ r !! py "raw_response" = Some (PStr (py "{}")).
Proof.
  apply (generate_answer_placeholder (Some (py "k")) provider_empty_object
           (py "q") [] response_empty_object (dict_literal []));
    [reflexivity | reflexivity | reflexivity | reflexivity | left; reflexivity].
Defined.

(** X12: when the provider answers 200 with a JSON value that is not an
    object (a list, a string, a number, [null], ...), the result has
    [error] true and the unexpected-error message with the
    [AttributeError] of the missing [get]. *)
Theorem generate_answer_not_an_object (key : option str) (net : network)
    (q : str) (tr : list event) (resp : response) (v : pyval) :
  key_missing key = false →
  net (gemini_request key q) = inr resp →
  status_code resp = 200%Z →
  json resp = inr v →
  (∀ d, v ≠ PDict d) →
  ∃ r,
    generate_answer key net q tr
    = (inr r, tr ++ [HttpPost (gemini_request key q)])
    ∧ r !! py "error" = Some (PBool true)
    ∧ r !! py "answer" = Some (PStr
        (py "An unexpected server error occurred: '" ++ type_name v
         ++ py "' object has no attribute 'get'"))
    ∧ r !! py "raw_response" = Some (PStr
        (py "'" ++ type_name v ++ py "' object has no attribute 'get'")).
Proof.
  intros Hkey Hnet Hst Hjson Hv. eexists. split.
  - apply (generate_answer_extract_raises _ _ _ _ resp v
             (Exn AttributeError
                (py "'" ++ type_name v ++ py "' object has no attribute 'get'")));
      try done.
    destruct v; try reflexivity. by destruct (Hv d).
  - unfold except_result. cbn [is_request_exception exn_class_of exn_str].
    by rewrite answer_result_error, answer_result_answer,
      answer_result_raw_response.
Qed.

Lemma generate_answer_not_an_object_witness :
  ∃ r,
    generate_answer (Some (py "k")) provider_list_body (py "q") []
    = (inr r, [HttpPost (gemini_request (Some (py "k")) (py "q"))])
    ∧ r !! py "error" = Some (PBool true)
    ∧ r !! py "answer" = Some (PStr
        (py "An unexpected server error occurred: 'list' object has no attribute 'get'"))
    ∧ r !! py "raw_response" = Some (PStr
        (py "'list' object has no attribute 'get'")).
Proof.
  apply (generate_answer_not_an_object (Some (py "k")) provider_list_body
           (py "q") [] response_list_body (PList []));
    [reflexivity | reflexivity | reflexivity | reflexivity | discriminate].
Defined.

(** X13: when the provider answers 200 with a [candidates] list, or a
    [parts] list of the first candidate's content, that is present but
    empty, the result has [error] true and the unexpected-error message
    of the [IndexError], not the placeholder. *)
Theorem generate_answer_empty_list (key : option str) (net : network)
    (q : str) (tr : list event) (resp : response) (d : gmap str pyval) :
  key_missing key = false →
  net (gemini_request key q) = inr resp →
  status_code resp = 200%Z →
  json resp = inr (PDict d) →
  d !! py "candidates" = Some (PList [])
  ∨ (∃ c cs ct, d !! py "candidates" = Some (PList (PDict c :: cs))
      ∧ c !! py "content" = Some (PDict ct)
      ∧ ct !! py "parts" = Some (PList [])) →
  ∃ r,
    generate_answer key net q tr
    = (inr r, tr ++ [HttpPost (gemini_request key q)])
    ∧ r !! py "error" = Some (PBool true)
    ∧ r !! py "answer" = Some (PStr
        (py "An unexpected server error occurred: list index out of range"))
    ∧ r !! py "raw_response" = Some (PStr (py "list index out of range")).
Proof.
  intros Hkey Hnet Hst Hjson Hempty. eexists. split.
  - apply (generate_answer_extract_raises _ _ _ _ resp (PDict d)
             (Exn IndexError (py "list index out of range"))); try done.
    destruct Hempty as [Hd|(c & cs & ct & Hd & Hc & Hct)].
    + by apply extract_answer_text_empty_candidates.
    + by apply (extract_answer_text_empty_parts d c cs ct).
  - unfold except_result. cbn [is_request_exception exn_class_of exn_str].
    by rewrite answer_result_error, answer_result_answer,
      answer_result_raw_response.
Qed.

Lemma generate_answer_empty_list_witness :
  ∃ r,
    generate_answer (Some (py "k")) provider_no_part (py "q") []
    = (inr r, [HttpPost (gemini_request (Some (py "k")) (py "q"))])
    ∧ r !! py "error" = Some (PBool true)
    ∧ r !! py "answer" = Some (PStr
        (py "An unexpected server error occurred: list index out of range"))
    ∧ r !! py "raw_response" = Some (PStr (py "list index out of range")).
Proof.
  apply (generate_answer_empty_list (Some (py "k")) provider_no_part
           (py "q") [] response_no_part
           (dict_literal [("candidates", PList [PDict (dict_literal
              [("content", PDict (dict_literal [("parts", PList [])]))])])]));
    [reflexivity | reflexivity | reflexivity | reflexivity |].
  right. do 3 eexists. repeat split; reflexivity.
Defined.

(** * More about the request handler *)

Lemma answer_body_message e m p r : answer_body e m p r !! py "message" = Some m.
Proof. reflexivity. Qed.

Lemma answer_body_raw_response e m p r :
  answer_body e m p r !! py "raw_response" = Some r.
Proof. reflexivity. Qed.

Lemma answer_body_dom e m p r :
  dom (answer_body e m p r)
  = {[py "error"; py "message"; py "processed"; py "raw_response"]}.
Proof.
  unfold answer_body, dict_literal. simpl.
  rewrite !dom_insert_L, dom_empty_L. set_solver.
Qed.

Lemma no_question_body_dom :
  dom no_question_body
  = {[py "error"; py "message"; py "processed"; py "answer";
      py "raw_response"]}.
Proof.
  unfold no_question_body, dict_literal. simpl.
  rewrite !dom_insert_L, dom_empty_L. set_solver.
Qed.

(** The question as the handler reads it: the string under [question],
    or [""] when the key is missing. *)
Lemma question_default (d : gmap str pyval) (s : str) :
  (d !! py "question" = None ∧ s = []) ∨ d !! py "question" = Some (PStr s) →
  default (PStr (py "")) (d !! py "question") = PStr s.
Proof. by intros [[-> ->]| ->]. Qed.

(** X14: a JSON body that is not an object makes the handler raise the
    [AttributeError] of the missing [get]; nothing is preprocessed and no
    call is made. *)
Theorem handle_answer_body_not_an_object (U : ucd) (key : option str)
    (net : network) (data : pyval) (tr : list event) :
  (∀ d, data ≠ PDict d) →
  handle_answer U key net data tr
  = (raise AttributeError
       (py "'" ++ type_name data ++ py "' object has no attribute 'get'"), tr).
Proof.
  intros Hdata. run_handle_answer.
  destruct data; try reflexivity. by destruct (Hdata d).
Qed.

Lemma handle_answer_body_not_an_object_witness :
  handle_answer ucd_sample (Some (py "k")) provider_paris body_list []
  = (raise AttributeError (py "'list' object has no attribute 'get'"), []).
Proof.
  apply (handle_answer_body_not_an_object ucd_sample (Some (py "k"))
           provider_paris body_list []).
  discriminate.
Defined.

(** X15: a question that is present but not a string ([null], a number,
    a list, ...) makes the handler raise the [AttributeError] of the
    missing [strip]; nothing is preprocessed and no call is made. *)
Theorem handle_answer_question_not_a_string (U : ucd) (key : option str)
    (net : network) (d : gmap str pyval) (v : pyval) (tr : list event) :
  d !! py "question" = Some v →
  (∀ s, v ≠ PStr s) →
  handle_answer U key net (PDict d) tr
  = (raise AttributeError
       (py "'" ++ type_name v ++ py "' object has no attribute 'strip'"), tr).
Proof.
  intros Hq Hv. run_handle_answer. rewrite Hq. cbn [default from_option id].
  destruct v; try reflexivity. by destruct (Hv s).
Qed.

Lemma handle_answer_question_not_a_string_witness :
  handle_answer ucd_sample (Some (py "k")) provider_paris body_null_question []
  = (raise AttributeError (py "'NoneType' object has no attribute 'strip'"), []).
Proof.
  apply (handle_answer_question_not_a_string ucd_sample (Some (py "k"))
           provider_paris (dict_literal [("question", PNone)]) PNone []);
    [reflexivity | discriminate].
Defined.

(** A question that is not blank: the handler's answer in terms of the
    answer service's. *)
Lemma handle_answer_run (U : ucd) (key : option str) (net : network)
    (d : gmap str pyval) (s : str) (tr : list event) :
  (d !! py "question" = None ∧ s = []) ∨ d !! py "question" = Some (PStr s) →
  strip U s ≠ [] →
  only_exceptions net →
  let pq := preprocess_question U (strip U s) in
  let tr1 := tr ++ [CallPreprocess (strip U s); CallGenerateAnswer pq] in
  let tr2 := if key_missing key then tr1
             else tr1 ++ [HttpPost (gemini_request key pq)] in
  ∃ b a r,
    generate_answer key net pq tr1 = (inr (answer_result b a r), tr2)
    ∧ handle_answer U key net (PDict d) tr
      = (inr (answer_body (PBool b) a pq (PStr r),
              if b then 500%Z else 200%Z), tr2).
Proof.
  intros Hq Hs Hnet pq tr1 tr2.
  destruct (generate_answer_returns key net pq tr1 Hnet)
    as (b & a & r & tr' & Hrun & _).
  pose proof (generate_answer_trace key net pq tr1) as Htr.
  rewrite Hrun in Htr. cbn [snd] in Htr. fold tr2 in Htr. subst tr'.
  exists b, a, r. split; [done|].
  by apply (handle_answer_asked U key net d s tr (question_default d s Hq)).
Qed.

(** The handler's trace is the answer service's, whether the service
    returns or an exception leaves it. *)
Lemma handle_answer_trace (U : ucd) (key : option str) (net : network)
    (d : gmap str pyval) (s : str) (tr : list event) :
  (d !! py "question" = None ∧ s = []) ∨ d !! py "question" = Some (PStr s) →
  strip U s ≠ [] →
  (handle_answer U key net (PDict d) tr).2
  = (generate_answer key net (preprocess_question U (strip U s))
       (tr ++ [CallPreprocess (strip U s);
               CallGenerateAnswer (preprocess_question U (strip U s))])).2.
Proof.
  intros Hq Hs.
  destruct (generate_answer_outcome key net
              (preprocess_question U (strip U s))
              (tr ++ [CallPreprocess (strip U s);
                CallGenerateAnswer (preprocess_question U (strip U s))]))
    as ([e|ans] & tr' & Hrun & Ho); rewrite Hrun.
  - by rewrite (handle_answer_raised U key net d s tr
                  (question_default d s Hq) e tr').
  - destruct Ho as (b & a & r & -> & _).
    by rewrite (handle_answer_asked U key net d s tr
                  (question_default d s Hq) b a r tr').
Qed.

(** X16: for a question that is not blank, the handler's body has exactly
    the keys [error], [message], [processed] and [raw_response] (no
    [answer] key, unlike the 400 body): [message] is the answer
    service's [answer], [raw_response] its [raw_response], [error] its
    [error], and [processed] the preprocessed question.  (The service
    returns: nothing outside [Exception] is raised on the provider's
    side.) *)
Theorem handle_answer_passes_result (U : ucd) (key : option str)
    (net : network) (d : gmap str pyval) (s : str) (tr : list event) :
  (d !! py "question" = None ∧ s = []) ∨ d !! py "question" = Some (PStr s) →
  strip U s ≠ [] →
  only_exceptions net →
  ∃ ans tr1 body status tr',
    generate_answer key net (preprocess_question U (strip U s)) tr1
    = (inr ans, tr')
    ∧ handle_answer U key net (PDict d) tr = (inr (body, status), tr')
    ∧ dom body = {[py "error"; py "message"; py "processed"; py "raw_response"]}
    ∧ body !! py "error" = ans !! py "error"
    ∧ body !! py "message" = ans !! py "answer"
    ∧ body !! py "raw_response" = ans !! py "raw_response"
    ∧ body !! py "processed"
      = Some (PStr (preprocess_question U (strip U s))).
Proof.
  intros Hq Hs Hnet.
  destruct (handle_answer_run U key net d s tr Hq Hs Hnet)
    as (b & a & r & Hrun & Hh).
  do 5 eexists. split; [exact Hrun|]. split; [exact Hh|].
  split; [apply answer_body_dom|].
  by rewrite answer_body_error, answer_body_message, answer_body_raw_response,
    answer_body_processed, answer_result_error, answer_result_answer,
    answer_result_raw_response.
Qed.

Lemma handle_answer_passes_result_witness :
  ∃ ans tr1 body status tr',
    generate_answer (Some (py "k")) provider_paris
      (preprocess_question ucd_sample (strip ucd_sample (py " Paris? "))) tr1
    = (inr ans, tr')
    ∧ handle_answer ucd_sample (Some (py "k")) provider_paris
        (body_with_question (py " Paris? ")) []
      = (inr (body, status), tr')
    ∧ dom body = {[py "error"; py "message"; py "processed"; py "raw_response"]}
    ∧ body !! py "error" = ans !! py "error"
    ∧ body !! py "message" = ans !! py "answer"
    ∧ body !! py "raw_response" = ans !! py "raw_response"
    ∧ body !! py "processed"
      = Some (PStr (preprocess_question ucd_sample
                      (strip ucd_sample (py " Paris? ")))).
Proof.
  apply (handle_answer_passes_result ucd_sample (Some (py "k")) provider_paris
           (dict_literal [("question", PStr (py " Paris? "))])
           (py " Paris? ") []);
    [right; reflexivity | discriminate | intros r; exact I].
Defined.

(** X17: without an API key, a question that is not blank is answered
    with status 500, [error] true and the configuration-missing message;
    the question is preprocessed and the answer service called, but no
    outbound call is made. *)
Theorem handle_answer_without_key (U : ucd) (key : option str)
    (net : network) (d : gmap str pyval) (s : str) (tr : list event) :
  key_missing key = true →
  (d !! py "question" = None ∧ s = []) ∨ d !! py "question" = Some (PStr s) →
  strip U s ≠ [] →
  ∃ body,
    handle_answer U key net (PDict d) tr
    = (inr (body, 500%Z),
       tr ++ [CallPreprocess (strip U s);
              CallGenerateAnswer (preprocess_question U (strip U s))])
    ∧ body !! py "error" = Some (PBool true)
    ∧ body !! py "message" = Some (PStr (py
        "GEMINI_API_KEY not configured on the server. Please check your .env file or environment variables."))
    ∧ body !! py "raw_response" = Some (PStr (py "N/A")).
Proof.
  intros Hkey Hq Hs.
  pose proof (handle_answer_asked U key net d s tr (question_default d s Hq)
                true _ (py "N/A") _ Hs
                (generate_answer_no_key key net _ _ Hkey)) as Hh.
  eexists. split; [exact Hh|].
  by rewrite answer_body_error, answer_body_message, answer_body_raw_response.
Qed.

Lemma handle_answer_without_key_witness :
  ∃ body,
    handle_answer ucd_sample None provider_paris
      (body_with_question (py " Paris? ")) []
    = (inr (body, 500%Z),
       [CallPreprocess (strip ucd_sample (py " Paris? "));
        CallGenerateAnswer
          (preprocess_question ucd_sample (strip ucd_sample (py " Paris? ")))])
    ∧ body !! py "error" = Some (PBool true)
    ∧ body !! py "message" = Some (PStr (py
        "GEMINI_API_KEY not configured on the server. Please check your .env file or environment variables."))
    ∧ body !! py "raw_response" = Some (PStr (py "N/A")).
Proof.
  apply (handle_answer_without_key ucd_sample None provider_paris
           (dict_literal [("question", PStr (py " Paris? "))])
           (py " Paris? ") []);
    [reflexivity | right; reflexivity | discriminate].
Defined.

(** X18: with a key configured, a question that is not blank leads to
    exactly one outbound call, made after the question was stripped and
    preprocessed, and the text sent to the provider is the preprocessed
    question, not the question as typed. *)
Theorem handle_answer_calls (U : ucd) (key : option str) (net : network)
    (d : gmap str pyval) (s : str) (tr : list event) :
  key_missing key = false →
  (d !! py "question" = None ∧ s = []) ∨ d !! py "question" = Some (PStr s) →
  strip U s ≠ [] →
  (handle_answer U key net (PDict d) tr).2
  = tr ++ [CallPreprocess (strip U s);
           CallGenerateAnswer (preprocess_question U (strip U s));
           HttpPost (gemini_request key (preprocess_question U (strip U s)))].
Proof.
  intros Hkey Hq Hs.
  rewrite (handle_answer_trace U key net d s tr Hq Hs).
  rewrite generate_answer_trace, Hkey. by rewrite <- app_assoc.
Qed.

Lemma handle_answer_calls_witness :
  (handle_answer ucd_sample (Some (py "k")) provider_paris
     (body_with_question (py " Paris? ")) []).2
  = [CallPreprocess (py "Paris?");
     CallGenerateAnswer (py "paris");
     HttpPost (gemini_request (Some (py "k")) (py "paris"))].
Proof.
  apply (handle_answer_calls ucd_sample (Some (py "k")) provider_paris
           (dict_literal [("question", PStr (py " Paris? "))])
           (py " Paris? ") []);
    [reflexivity | right; reflexivity | discriminate].
Defined.

(** X19: end to end, with a key configured: when the provider answers the
    request for the preprocessed question with status 200 and a body
    whose first candidate's first part has the text [t], the handler
    answers 200 with [error] false, [t] as [message], the preprocessed
    question as [processed] and the raw body text as [raw_response]. *)
Theorem handle_answer_success (U : ucd) (key : option str) (net : network)
    (d : gmap str pyval) (s : str) (tr : list event) (resp : response)
    (j c ct p : gmap str pyval) (t : pyval) (cs ps : list pyval) :
  key_missing key = false →
  (d !! py "question" = None ∧ s = []) ∨ d !! py "question" = Some (PStr s) →
  strip U s ≠ [] →
  net (gemini_request key (preprocess_question U (strip U s))) = inr resp →
  status_code resp = 200%Z →
  json resp = inr (PDict j) →
  j !! py "candidates" = Some (PList (PDict c :: cs)) →
  c !! py "content" = Some (PDict ct) →
  ct !! py "parts" = Some (PList (PDict p :: ps)) →
  p !! py "text" = Some t →
  ∃ body tr',
    handle_answer U key net (PDict d) tr = (inr (body, 200%Z), tr')
    ∧ body !! py "error" = Some (PBool false)
    ∧ body !! py "message" = Some t
    ∧ body !! py "processed" = Some (PStr (preprocess_question U (strip U s)))
    ∧ body !! py "raw_response" = Some (PStr (text resp)).
Proof.
  intros Hkey Hq Hs Hnet Hst Hjson Hj Hc Hct Hp.
  pose proof (handle_answer_asked U key net d s tr (question_default d s Hq)
                false t (text resp) _ Hs
                (generate_answer_found key net _ _ resp j c ct p t cs ps
                   Hkey Hnet Hst Hjson Hj Hc Hct Hp)) as Hh.
  do 2 eexists. split; [exact Hh|].
  by rewrite answer_body_error, answer_body_message, answer_body_processed,
    answer_body_raw_response.
Qed.

Lemma handle_answer_success_witness :
  ∃ body tr',
    handle_answer ucd_sample (Some (py "k")) provider_paris
      (body_with_question (py " Paris? ")) []
    = (inr (body, 200%Z), tr')
    ∧ body !! py "error" = Some (PBool false)
    ∧ body !! py "message" = Some (PStr (py "Paris"))
    ∧ body !! py "processed"
      = Some (PStr (preprocess_question ucd_sample
                      (strip ucd_sample (py " Paris? "))))
    ∧ body !! py "raw_response" = Some (PStr (text response_paris)).
Proof.
  apply (handle_answer_success ucd_sample (Some (py "k")) provider_paris
           (dict_literal [("question", PStr (py " Paris? "))])
           (py " Paris? ") [] response_paris
           (dict_literal [("candidates", PList [PDict (dict_literal
              [("content", PDict (dict_literal [("parts", PList [PDict (dict_literal
                 [("text", PStr (py "Paris"))])])]))])])])
           (dict_literal
              [("content", PDict (dict_literal [("parts", PList [PDict (dict_literal
                 [("text", PStr (py "Paris"))])])]))])
           (dict_literal [("parts", PList [PDict (dict_literal
                 [("text", PStr (py "Paris"))])])])
           (dict_literal [("text", PStr (py "Paris"))])
           (PStr (py "Paris")) [] []);
    [reflexivity | right; reflexivity | discriminate | reflexivity..].
Defined.



(** * Start-up *)

(** X22: the start-up warning is printed exactly when every later call of
    the answer service is turned down with the configuration-missing
    message and without an outbound call; with or without it the server
    is started. *)
Theorem startup_warning_iff (key : option str) :
  ((∃ line, Print line ∈ main key)
   ↔ ∀ net q tr, ∃ d,
       generate_answer key net q tr = (inr d, tr)
       ∧ d !! py "answer" = Some (PStr (py
           "GEMINI_API_KEY not configured on the server. Please check your .env file or environment variables.")))
  ∧ last (main key) = Some (AppRun true (py "0.0.0.0") 5000).
Proof.
  split; [|unfold main; by destruct (key_missing key)].
  unfold main. destruct (key_missing key) eqn:Hkey; split.
  - intros _ net q tr. eexists.
    split; [by apply generate_answer_no_key | apply answer_result_answer].
  - intros _. eexists. apply list_elem_of_here.
  - intros [line Hin]. apply list_elem_of_singleton in Hin. discriminate Hin.
  - intros H. destruct (H provider_paris [] []) as (d & Hrun & _).
    pose proof (generate_answer_trace key provider_paris [] []) as Htr.
    rewrite Hrun, Hkey in Htr. discriminate Htr.
Qed.
